(** * Quick Definition background worker: normalisation, projection, cache keys

    A shallow embedding of [src/extension/background.js]:
    - the two provider adapters [normalizeMwData] and [normalizeGeminiData],
      over untyped JSON-like payloads, with JavaScript's [TypeError]s made
      explicit in a small error monad;
    - the preference projector [applyDisplayPreferences], once as a pure
      function on entries and once over an explicit object store, to speak
      about aliasing and mutation;
    - the lexical cache key built in the [getDefinition] message handler. *)

From Stdlib Require Import ZArith Lia Ascii String.
From stdpp Require Import base strings list gmap pretty.

Local Open Scope string_scope.
Local Set Warnings "-register-all".

(** ** JavaScript values

    Payloads are what [res.json()] returns: trees of objects, arrays, strings,
    numbers, booleans and [null]; property reads add [undefined].  Numbers are
    integers here (the code only ever computes with lengths and with the
    example count), printed in plain decimal as JavaScript prints integers
    below 10^21; a string is a sequence of characters, one [ascii] per code
    unit.  An object is its list of own properties, in insertion order. *)

Inductive value : Type :=
| VUndef
| VNull
| VBool (b : bool)
| VNum (n : Z)
| VStr (s : string)
| VArr (items : list value)
| VObj (props : list (string * value)).

(** ** The error monad: a call either returns or throws *)

Inductive result (A : Type) : Type :=
| Ok (a : A)
| Throw.
Arguments Ok {A} a.
Arguments Throw {A}.

Definition bind {A B : Type} (m : result A) (k : A -> result B) : result B :=
  match m with
  | Ok a => k a
  | Throw => Throw
  end.

Notation "'let*' x ':=' m 'in' k" := (bind m (fun x => k))
  (at level 10, x name, m at level 100, k at level 200, only parsing).

(** [try { body } catch (e) { handler }] *)
Definition try_catch {A : Type} (body : result A) (handler : A) : A :=
  match body with
  | Ok a => a
  | Throw => handler
  end.

(** [a.map(f)] for a callback that may throw *)
Fixpoint map_result {A B : Type} (f : A -> result B) (a : list A) : result (list B) :=
  match a with
  | [] => Ok []
  | x :: rest =>
      let* y := f x in
      let* ys := map_result f rest in
      Ok (y :: ys)
  end.

Module JS.

(** [!!v] *)
Definition truthy (v : value) : bool :=
  match v with
  | VUndef | VNull => false
  | VBool b => b
  | VNum n => negb (n =? 0)%Z
  | VStr s => negb (String.eqb s "")
  | VArr _ | VObj _ => true
  end.

(** [a || b] for an operand [b] that has no effect *)
Definition or_else (a b : value) : value := if truthy a then a else b.

(** [a && b]: [b] is evaluated only when [a] is truthy *)
Definition and_then (a : value) (b : result value) : result value :=
  if truthy a then b else Ok a.

(** [typeof v === 'object'] *)
Definition typeof_object (v : value) : bool :=
  match v with
  | VNull | VArr _ | VObj _ => true
  | _ => false
  end.

(** [typeof v === 'string'] *)
Definition typeof_string (v : value) : bool :=
  match v with
  | VStr _ => true
  | _ => false
  end.

(** [Array.isArray(v)] *)
Definition isArray (v : value) : bool :=
  match v with
  | VArr _ => true
  | _ => false
  end.

Fixpoint lookup_prop (k : string) (props : list (string * value)) : value :=
  match props with
  | [] => VUndef
  | (k', v) :: rest => if String.eqb k k' then v else lookup_prop k rest
  end.

(** [v.k] for a property name [k].  Reading from [undefined] or [null]
    throws.  None of the names the program reads is a property of a built-in
    prototype, except [length] on arrays and strings. *)
Definition get (v : value) (k : string) : result value :=
  match v with
  | VUndef | VNull => Throw
  | VObj props => Ok (lookup_prop k props)
  | VArr items =>
      Ok (if String.eqb k "length" then VNum (Z.of_nat (length items)) else VUndef)
  | VStr s =>
      Ok (if String.eqb k "length" then VNum (Z.of_nat (String.length s)) else VUndef)
  | VBool _ | VNum _ => Ok VUndef
  end.

(** [v[i]] for an index [i] *)
Definition idx (v : value) (i : nat) : result value :=
  match v with
  | VUndef | VNull => Throw
  | VArr items => Ok (nth i items VUndef)
  | VStr s =>
      Ok (match String.get i s with
          | Some c => VStr (String c "")
          | None => VUndef
          end)
  | VObj props => Ok (lookup_prop (pretty i) props)
  | VBool _ | VNum _ => Ok VUndef
  end.

(** [v === 0] and [v === 'vis'] *)
Definition strict_eq_num (v : value) (n : Z) : bool :=
  match v with
  | VNum m => (m =? n)%Z
  | _ => false
  end.

Definition strict_eq_str (v : value) (s : string) : bool :=
  match v with
  | VStr t => String.eqb t s
  | _ => false
  end.

Fixpoint join (sep : string) (l : list string) : string :=
  match l with
  | [] => ""
  | [s] => s
  | s :: rest => s +:+ sep +:+ join sep rest
  end.

Fixpoint has_prop (k : string) (props : list (string * value)) : bool :=
  match props with
  | [] => false
  | (k', _) :: rest => String.eqb k k' || has_prop k rest
  end.

(** [`${v}`]: the string a template literal puts in place of a value.  An
    object of a payload that has a property [toString] of its own cannot be
    converted (the property is no function, and [valueOf] returns the
    object): the conversion throws. *)
Fixpoint to_string (v : value) : result string :=
  match v with
  | VUndef => Ok "undefined"
  | VNull => Ok "null"
  | VBool true => Ok "true"
  | VBool false => Ok "false"
  | VNum n => Ok (pretty n)
  | VStr s => Ok s
  | VArr items =>
      let* parts := map_result (fun x => match x with
                                         | VUndef | VNull => Ok ""
                                         | _ => to_string x
                                         end) items in
      Ok (join "," parts)
  | VObj props => if has_prop "toString" props then Throw else Ok "[object Object]"
  end.

(** The receiver of a string method ([startsWith], [match], [charAt],
    [replace], [split]): on anything but a string the method is missing (or,
    on an object of a JSON payload, not a function) and the call throws. *)
Definition string_receiver (v : value) : result string :=
  match v with
  | VStr s => Ok s
  | _ => Throw
  end.

(** The receiver of [map]: the same for arrays. *)
Definition array_receiver (v : value) : result (list value) :=
  match v with
  | VArr items => Ok items
  | _ => Throw
  end.

(** [s.startsWith(p)] *)
Fixpoint startsWith (p s : string) : bool :=
  match p with
  | EmptyString => true
  | String a p' =>
      match s with
      | EmptyString => false
      | String b s' => Ascii.eqb a b && startsWith p' s'
      end
  end.

(** [s.charAt(0)] *)
Definition charAt0 (s : string) : string :=
  match s with
  | EmptyString => ""
  | String c _ => String c ""
  end.

Definition is_digit (c : ascii) : bool :=
  let n := nat_of_ascii c in ((48 <=? n) && (n <=? 57))%nat.

(** [s.match(/^_[0-9]/)], as a truth value *)
Definition match_underscore_digit (s : string) : bool :=
  match s with
  | String u (String c _) => Ascii.eqb u "_" && is_digit c
  | _ => false
  end.

(** [s.split(sep)[0]]: what stands before the first [sep] *)
Fixpoint split_head (sep : ascii) (s : string) : string :=
  match s with
  | EmptyString => ""
  | String c rest =>
      if Ascii.eqb c sep then "" else String c (split_head sep rest)
  end.

(** [s.replace(/t1|t2/g, '')] for two literal tokens: every occurrence of
    either token is dropped, scanning from the left; [skip] counts the
    characters of a matched token still to be dropped. *)
Fixpoint strip_go (t1 t2 : string) (skip : nat) (s : string) : string :=
  match s with
  | EmptyString => ""
  | String c rest =>
      match skip with
      | S n => strip_go t1 t2 n rest
      | O =>
          if startsWith t1 s then strip_go t1 t2 (String.length t1 - 1) rest
          else if startsWith t2 s then strip_go t1 t2 (String.length t2 - 1) rest
          else String c (strip_go t1 t2 0 rest)
      end
  end.

Definition strip_tokens (t1 t2 s : string) : string := strip_go t1 t2 0 s.

(** [a.slice(0, last)] on an array *)
Definition slice0 {A : Type} (a : list A) (last : Z) : list A :=
  let len := Z.of_nat (length a) in
  let final := if (last <? 0)%Z then Z.max (len + last) 0 else Z.min last len in
  take (Z.to_nat final) a.

End JS.

(** ** The canonical entry

    The object literals the adapters return, as records.  What the projector
    takes apart is typed (the [definition] array and each sense's [example]
    array); every leaf stays a JavaScript value, since the adapters copy
    leaves from the payload unchecked.  A key that an adapter does not write
    ([translation] for Merriam-Webster) is [None]. *)

Record Sense : Type := mkSense {
  def_pos : value;
  def_text : value;
  def_translation : option value;
  (** [None] when the sense has no [example] property *)
  def_example : option (list value)
}.

Record Entry : Type := mkEntry {
  word : value;
  translation : option value;
  pos : list value;
  verbs : list value;
  pronunciation : list value;
  definition : list Sense
}.

(** [{ lang: 'us', pron: p, url: u }] *)
Definition mk_pronunciation (p u : value) : value :=
  VObj [("lang", VStr "us"); ("pron", p); ("url", u)].

(** ** Provider A: Merriam-Webster *)

(** Line 24: the directory of an audio file on the media server. *)
Definition subdir (audioFile : string) : string :=
  if JS.startsWith "bix" audioFile then "bix"
  else if JS.startsWith "gg" audioFile then "gg"
  else if JS.match_underscore_digit audioFile then "number"
  else JS.charAt0 audioFile.

(** Line 25 *)
Definition audio_url (audioFile : string) : string :=
  "https://media.merriam-webster.com/audio/prons/en/us/wav/"
    +:+ subdir audioFile +:+ "/" +:+ audioFile +:+ ".wav".

Section Adapters.

(** [s > k] for a string [s]: whether the number that [s] converts to is
    greater than [k].  ECMAScript reads [s] as a numeric literal into an
    IEEE double; that reading is left open here, and everything below holds
    whatever it answers. *)
Variable string_gt : string -> Z -> bool.

(** [v > k] for an integer [k].  An array is compared through its string;
    an object converts to ["[object Object]"], which is no number, unless
    its own [toString] makes the conversion throw. *)
Definition js_gt (v : value) (k : Z) : result bool :=
  match v with
  | VNum n => Ok (k <? n)%Z
  | VUndef => Ok false
  | VNull => Ok (k <? 0)%Z
  | VBool b => Ok (k <? (if b then 1 else 0))%Z
  | VStr s => Ok (string_gt s k)
  | VArr _ => let* s := JS.to_string v in Ok (string_gt s k)
  | VObj props => if JS.has_prop "toString" props then Throw else Ok false
  end.

(** Lines 19 to 27: the pronunciation record. *)
Definition mw_pronunciation (entry : value) : result value :=
  let* hwi := JS.get entry "hwi" in
  let* prs := JS.and_then hwi (JS.get hwi "prs") in
  let* prs0 := JS.and_then prs (JS.idx prs 0) in
  if JS.truthy prs0 then
    let* mw := JS.get prs0 "mw" in
    let* phonetic := JS.to_string mw in
    let pron := VStr ("/" +:+ phonetic +:+ "/") in
    let* sound := JS.get prs0 "sound" in
    if JS.truthy sound then
      let* audio := JS.get sound "audio" in
      let* audioFile := JS.string_receiver audio in
      Ok (mk_pronunciation pron (VStr (audio_url audioFile)))
    else Ok (mk_pronunciation pron (VStr ""))
  else Ok (mk_pronunciation (VStr "") (VStr "")).

(** [firstSense.dt.find(item => item[0] === 'vis')] *)
Fixpoint find_vis (dt : list value) : result value :=
  match dt with
  | [] => Ok VUndef
  | item :: rest =>
      let* tag := JS.idx item 0 in
      if JS.strict_eq_str tag "vis" then Ok item else find_vis rest
  end.

(** Line 33, the body of the [try]: the examples it pushes. *)
Definition mw_vis_examples (def : value) : result (list value) :=
  let* def0 := JS.idx def 0 in
  let* sseq := JS.get def0 "sseq" in
  let* s0 := JS.idx sseq 0 in
  let* s00 := JS.idx s0 0 in
  let* firstSense := JS.idx s00 1 in
  let* dt := JS.get firstSense "dt" in
  if JS.truthy dt && JS.isArray dt then
    let* items := JS.array_receiver dt in
    let* visExample := find_vis items in
    if JS.truthy visExample then
      let* v1 := JS.idx visExample 1 in
      let* v10 := JS.idx v1 0 in
      let* t := JS.get v10 "t" in
      let* s := JS.string_receiver t in
      Ok [VObj [("text", VStr (JS.strip_tokens "{wi}" "{/wi}" s))]]
    else Ok []
  else Ok [].

(** Lines 29 to 34: the contents of [definition.example]. *)
Definition mw_examples (entry : value) : result (list value) :=
  let* suppl := JS.get entry "suppl" in
  let* examples := JS.and_then suppl (JS.get suppl "examples") in
  let* has := (if JS.truthy examples
               then let* len := JS.get examples "length" in js_gt len 0
               else Ok false) in
  if has then
    let* ex0 := JS.idx examples 0 in
    let* exampleText := JS.get ex0 "t" in
    let* s := JS.string_receiver exampleText in
    Ok [VObj [("text", VStr (JS.strip_tokens "{it}" "{/it}" s))]]
  else
    let* def := JS.get entry "def" in
    let* go := (if JS.truthy def
                then let* def0 := JS.idx def 0 in
                     let* sseq := JS.get def0 "sseq" in Ok (JS.truthy sseq)
                else Ok false) in
    if go then Ok (try_catch (mw_vis_examples def) []) else Ok [].

(** Line 17: the guard. *)
Definition mw_guard (mwData : value) : result bool :=
  if negb (JS.truthy mwData) then Ok true
  else
    let* len := JS.get mwData "length" in
    if JS.strict_eq_num len 0 then Ok true
    else
      let* first := JS.idx mwData 0 in
      Ok (negb (JS.typeof_object first)).

Definition normalizeMwData (mwData : value) : result (option Entry) :=
  let* reject := mw_guard mwData in
  if reject then Ok None
  else
    let* entry := JS.idx mwData 0 in
    let* pronunciation := mw_pronunciation entry in
    let* fl := JS.get entry "fl" in
    let* shortdef := JS.get entry "shortdef" in
    let* shortdef0 := JS.idx shortdef 0 in
    let* example := mw_examples entry in
    let definition :=
      {| def_pos := JS.or_else fl (VStr "unknown");
         def_text := JS.or_else shortdef0 (VStr "No definition found.");
         def_translation := None;
         def_example := Some example |} in
    let* meta := JS.get entry "meta" in
    let* id := JS.get meta "id" in
    let* ids := JS.string_receiver id in
    Ok (Some {| word := VStr (JS.split_head ":" ids);
                translation := None;
                pos := [def_pos definition];
                verbs := [];
                pronunciation := [pronunciation];
                definition := [definition] |}).

(** ** Provider B: the Gemini service *)

(** Lines 48 to 51: one example, a bare string or a [{text, translation}]
    pair. *)
Definition gemini_example (ex : value) : result value :=
  let* text := (if JS.typeof_string ex then Ok ex else JS.get ex "text") in
  let* translation :=
    (if JS.typeof_object ex then JS.get ex "translation" else Ok VNull) in
  Ok (VObj [("text", text); ("translation", translation)]).

(** Lines 42 to 53: the callback of [aiData.forms.map]. *)
Definition gemini_form (form : value) : result Sense :=
  let* definitions := JS.get form "definitions" in
  let* firstDef := JS.idx definitions 0 in
  let* partOfSpeech := JS.get form "partOfSpeech" in
  let* definition := JS.get firstDef "definition" in
  let* definitionTranslation := JS.get firstDef "definitionTranslation" in
  let* examples := JS.get firstDef "examples" in
  let* example :=
    (if JS.truthy examples
     then let* exs := JS.array_receiver examples in map_result gemini_example exs
     else Ok []) in
  Ok {| def_pos := JS.or_else partOfSpeech (VStr "unknown");
        def_text := JS.or_else definition (VStr "No definition text found.");
        def_translation := Some (JS.or_else definitionTranslation VNull);
        def_example := Some example |}.

(** Line 39: the guard. *)
Definition gemini_guard (aiData : value) : result bool :=
  if negb (JS.truthy aiData) then Ok true
  else
    let* forms := JS.get aiData "forms" in
    if negb (JS.truthy forms) then Ok true
    else
      let* len := JS.get forms "length" in
      Ok (JS.strict_eq_num len 0).

Definition normalizeGeminiData (aiData : value) : result (option Entry) :=
  let* reject := gemini_guard aiData in
  if reject then Ok None
  else
    let* forms := JS.get aiData "forms" in
    let* items := JS.array_receiver forms in
    let* definitions := map_result gemini_form items in
    let* pron := JS.get aiData "pronunciation" in
    let pronunciation := mk_pronunciation (JS.or_else pron (VStr "")) (VStr "") in
    let* w := JS.get aiData "word" in
    let* phrase := JS.get aiData "phrase" in
    let* tr := JS.get aiData "translation" in
    Ok (Some {| word := (if JS.truthy w then w else phrase);
                translation := Some (JS.or_else tr VNull);
                pos := map def_pos definitions;
                verbs := [];
                pronunciation := [pronunciation];
                definition := definitions |}).

End Adapters.

(** ** The caller's check of what an adapter returned

    Lines 164 to 166, inside the promise chain whose [catch] reports every
    exception as an error response. *)
Definition check_fullData (fullData : option Entry) : result Entry :=
  match fullData with
  | None => Throw
  | Some e => if JS.truthy (word e) then Ok e else Throw
  end.

(** ** Settings

    What [chrome.storage.local.get] hands to the handler for the keys it
    asks for: each key is absent ([None]) or holds a value of the type the
    options page stores. *)
Record Settings : Type := mkSettings {
  preferredSource : option string;
  mwApiKey : option string;
  targetLanguage : option string;
  definitionScope : option string;
  exampleCount : option Z;
  ttsEnabled : option bool
}.

(** [x || d] for a setting [x] that is a string or absent *)
Definition str_or (x : option string) (d : string) : string :=
  match x with
  | Some s => if String.eqb s "" then d else s
  | None => d
  end.

(** [`${x}`] for a setting that is a string, a number, or absent *)
Definition show_str (x : option string) : string :=
  match x with
  | Some s => s
  | None => "undefined"
  end.

Definition show_num (x : option Z) : string :=
  match x with
  | Some n => pretty n
  | None => "undefined"
  end.

(** ** The preference projector *)

(** Lines 77 to 83: the callback of [definitionsToUse.map]. *)
Definition trim_examples (count : Z) (def : Sense) : Sense :=
  match def_example def with
  | Some example =>
      if (count <? Z.of_nat (length example))%Z
      then {| def_pos := def_pos def;
              def_text := def_text def;
              def_translation := def_translation def;
              def_example := Some (JS.slice0 example count) |}
      else def
  | None => def
  end.

Definition applyDisplayPreferences (data : Entry) (settings : Settings) : Entry :=
  let scope := str_or (definitionScope settings) "relevant" in
  let count := match exampleCount settings with
               | Some n => n
               | None => 1%Z
               end in
  let definitionsToUse := definition data in
  let definitionsToUse :=
    if String.eqb scope "relevant" && (1 <? length definitionsToUse)%nat
    then take 1 definitionsToUse
    else definitionsToUse in
  let finalDefinitions := map (trim_examples count) definitionsToUse in
  {| word := word data;
     translation := translation data;
     pos := pos data;
     verbs := verbs data;
     pronunciation := pronunciation data;
     definition := finalDefinitions |}.

(** The example limit the projector works with (line 69). *)
Definition limit_of (settings : Settings) : Z :=
  match exampleCount settings with
  | Some n => n
  | None => 1%Z
  end.

(** The senses the projector keeps (lines 71 to 75). *)
Definition kept (data : Entry) (settings : Settings) : list Sense :=
  if String.eqb (str_or (definitionScope settings) "relevant") "relevant"
     && (1 <? length (definition data))%nat
  then take 1 (definition data)
  else definition data.

(** ** The lexical cache key *)

(** Line 98: the template literal, over the text each field contributes. *)
Definition key_template (source word scope count targetLanguage : string) : string :=
  "qdp_" +:+ source +:+ "_" +:+ word +:+ "_" +:+ scope +:+ "_" +:+ count
    +:+ "_" +:+ targetLanguage.

(** Lines 95 to 98, for the lower-cased term [word]. *)
Definition displaySettingsCacheKey (settings : Settings) (word : string) : string :=
  let source := str_or (preferredSource settings) "cambridge" in
  let targetLanguage := str_or (targetLanguage settings) "none" in
  key_template source word (show_str (definitionScope settings))
    (show_num (exampleCount settings)) targetLanguage.

(** Lines 95 and 97: the provider and the target language of a request. *)
Definition provider_of (settings : Settings) : string :=
  str_or (preferredSource settings) "cambridge".

Definition language_of (settings : Settings) : string :=
  str_or (targetLanguage settings) "none".

(** The delimiter of the key does not occur in [s]. *)
Fixpoint no_delim (s : string) : bool :=
  match s with
  | EmptyString => true
  | String c rest => negb (Ascii.eqb c "_") && no_delim rest
  end.

(** Every character of [s] is a decimal digit or a minus sign. *)
Fixpoint numeral (s : string) : bool :=
  match s with
  | EmptyString => true
  | String c rest => (JS.is_digit c || Ascii.eqb c "-") && numeral rest
  end.

(** The media server's address, up to the language tag. *)
Definition mw_audio_base : string := "https://media.merriam-webster.com/audio/prons/en".

(** ** The projector over an object store

    Objects and arrays are cells of a store and values refer to them, so
    that sharing between the projector's argument and its result, and every
    assignment, are explicit.  A computation takes the store and returns a
    value with the new store; it returns [None] where the store does not
    hold an entry of the canonical shape under the argument (there the
    program throws, or coerces what it finds). *)

Module Store.

Definition loc : Type := positive.

Inductive hvalue : Type :=
| HUndef
| HNull
| HBool (b : bool)
| HNum (n : Z)
| HStr (s : string)
| HRef (l : loc).

Inductive cell : Type :=
| CObj (props : list (string * hvalue))
| CArr (items : list hvalue).

Abbreviation store := (gmap loc cell).

Definition M (A : Type) : Type := store -> option (A * store).

Definition ret {A : Type} (a : A) : M A := fun st => Some (a, st).

Definition stuck {A : Type} : M A := fun _ => None.

Definition sbind {A B : Type} (m : M A) (k : A -> M B) : M B :=
  fun st =>
    match m st with
    | Some (a, st') => k a st'
    | None => None
    end.

Notation "'let!' x ':=' m 'in' k" := (sbind m (fun x => k))
  (at level 10, x name, m at level 100, k at level 200, only parsing).

Definition truthy (v : hvalue) : bool :=
  match v with
  | HUndef | HNull => false
  | HBool b => b
  | HNum n => negb (n =? 0)%Z
  | HStr s => negb (String.eqb s "")
  | HRef _ => true
  end.

Fixpoint find_prop (k : string) (props : list (string * hvalue)) : option hvalue :=
  match props with
  | [] => None
  | (k', v) :: rest => if String.eqb k k' then Some v else find_prop k rest
  end.

(** The value of property [k], [undefined] when there is none *)
Definition lookup_prop (k : string) (props : list (string * hvalue)) : hvalue :=
  default HUndef (find_prop k props).

(** Define property [k]: in place when the object has it, else at the end *)
Fixpoint set_prop (k : string) (x : hvalue) (props : list (string * hvalue))
  : list (string * hvalue) :=
  match props with
  | [] => [(k, x)]
  | (k', v) :: rest =>
      if String.eqb k k' then (k', x) :: rest else (k', v) :: set_prop k x rest
  end.

(** A new object or array *)
Definition alloc (c : cell) : M hvalue :=
  fun st => let l := fresh (dom st) in Some (HRef l, <[l := c]> st).

(** The properties of the object [v] refers to *)
Definition props_of (v : hvalue) : M (list (string * hvalue)) :=
  fun st =>
    match v with
    | HRef l =>
        match st !! l with
        | Some (CObj props) => Some (props, st)
        | _ => None
        end
    | _ => None
    end.

(** The elements of the array [v] refers to *)
Definition items_of (v : hvalue) : M (list hvalue) :=
  fun st =>
    match v with
    | HRef l =>
        match st !! l with
        | Some (CArr items) => Some (items, st)
        | _ => None
        end
    | _ => None
    end.

(** [v.k = x] *)
Definition assign (v : hvalue) (k : string) (x : hvalue) : M unit :=
  fun st =>
    match v with
    | HRef l =>
        match st !! l with
        | Some (CObj props) => Some (tt, <[l := CObj (set_prop k x props)]> st)
        | _ => None
        end
    | _ => None
    end.

Fixpoint map_M {A B : Type} (f : A -> M B) (a : list A) : M (list B) :=
  match a with
  | [] => ret []
  | x :: rest =>
      let! y := f x in
      let! ys := map_M f rest in
      ret (y :: ys)
  end.

(** Lines 77 to 83: the callback of [definitionsToUse.map]. *)
Definition trim_examples (count : Z) (def : hvalue) : M hvalue :=
  let! props := props_of def in
  let! newDef := alloc (CObj props) in
  let example := lookup_prop "example" props in
  let! _ :=
    (if truthy example then
       let! items := items_of example in
       if (count <? Z.of_nat (length items))%Z then
         let! sliced := alloc (CArr (JS.slice0 items count)) in
         assign newDef "example" sliced
       else ret tt
     else ret tt) in
  ret newDef.

Definition applyDisplayPreferences (data : hvalue) (settings : Settings) : M hvalue :=
  let scope := str_or (definitionScope settings) "relevant" in
  let count := match exampleCount settings with
               | Some n => n
               | None => 1%Z
               end in
  let! props := props_of data in
  let! items := items_of (lookup_prop "definition" props) in
  let! definitionsToUse := alloc (CArr items) in
  let! definitionsToUse :=
    (if String.eqb scope "relevant" && (1 <? length items)%nat
     then alloc (CArr (take 1 items))
     else ret definitionsToUse) in
  let! items := items_of definitionsToUse in
  let! finals := map_M (trim_examples count) items in
  let! finalDefinitions := alloc (CArr finals) in
  let! props := props_of data in
  alloc (CObj (set_prop "definition" finalDefinitions props)).

(** *** Reading an entry out of the store

    [reify n st v] is the tree under [v], followed through at most [n]
    references. *)
Fixpoint reify (n : nat) (st : store) (v : hvalue) : option value :=
  match v with
  | HUndef => Some VUndef
  | HNull => Some VNull
  | HBool b => Some (VBool b)
  | HNum k => Some (VNum k)
  | HStr s => Some (VStr s)
  | HRef l =>
      match n with
      | O => None
      | S n' =>
          match st !! l with
          | Some (CArr items) => VArr <$> mapM (reify n' st) items
          | Some (CObj props) =>
              VObj <$> mapM (fun kv => (fun x => (kv.1, x)) <$> reify n' st kv.2) props
          | None => None
          end
      end
  end.

(** The elements of an array of leaves *)
Definition leaves_at (n : nat) (st : store) (v : hvalue) : option (list value) :=
  match v with
  | HRef l =>
      match st !! l with
      | Some (CArr items) => mapM (reify n st) items
      | _ => None
      end
  | _ => None
  end.

(** A property that an object may lack *)
Definition optional {A : Type} (read : hvalue -> option A) (o : option hvalue)
  : option (option A) :=
  match o with
  | Some v => Some <$> read v
  | None => Some None
  end.

Definition sense_at (n : nat) (st : store) (v : hvalue) : option Sense :=
  match v with
  | HRef l =>
      match st !! l with
      | Some (CObj props) =>
          p ← reify n st (lookup_prop "pos" props);
          t ← reify n st (lookup_prop "text" props);
          tr ← optional (reify n st) (find_prop "translation" props);
          ex ← optional (leaves_at n st) (find_prop "example" props);
          Some {| def_pos := p; def_text := t; def_translation := tr; def_example := ex |}
      | _ => None
      end
  | _ => None
  end.

Definition senses_at (n : nat) (st : store) (v : hvalue) : option (list Sense) :=
  match v with
  | HRef l =>
      match st !! l with
      | Some (CArr items) => mapM (sense_at n st) items
      | _ => None
      end
  | _ => None
  end.

(** The entry under [v], when the store holds one there *)
Definition entry_at (n : nat) (st : store) (v : hvalue) : option Entry :=
  match v with
  | HRef l =>
      match st !! l with
      | Some (CObj props) =>
          w ← reify n st (lookup_prop "word" props);
          tr ← optional (reify n st) (find_prop "translation" props);
          ps ← leaves_at n st (lookup_prop "pos" props);
          vs ← leaves_at n st (lookup_prop "verbs" props);
          pr ← leaves_at n st (lookup_prop "pronunciation" props);
          ds ← senses_at n st (lookup_prop "definition" props);
          Some {| word := w; translation := tr; pos := ps; verbs := vs;
                  pronunciation := pr; definition := ds |}
      | _ => None
      end
  | _ => None
  end.

End Store.

(** ** Vocabulary of the specification

    What the specification calls the headword and the senses of a payload,
    read off the payload's documented shape (not through the adapters). *)



(** Provider A: the short-definition list of the first record. *)
Definition mw_shortdef (mwData : value) : option (list value) :=
  match mwData with
  | VArr (VObj props :: _) =>
      match JS.lookup_prop "shortdef" props with
      | VArr defs => Some defs
      | _ => None
      end
  | _ => None
  end.





(** The parallel-arrays invariant of an entry. *)
Definition parallel (e : Entry) : Prop := length (pos e) = length (definition e).

(** ** Text: case, words, percent-encoding

    The string methods the message handlers use, on strings whose code units
    are below 256. *)

Module Text.

(** [c.toLowerCase()] for one code unit: the letters A to Z, and the
    capital letters of Latin-1 (U+00C0 to U+00DE without the multiplication
    sign), move 32 up. *)
Definition lower_char (c : ascii) : ascii :=
  let n := nat_of_ascii c in
  if (((65 <=? n) && (n <=? 90))
      || ((192 <=? n) && (n <=? 222) && negb (n =? 215)))%nat
  then ascii_of_nat (n + 32)
  else c.

(** [s.toLowerCase()] *)
Fixpoint toLowerCase (s : string) : string :=
  match s with
  | EmptyString => ""
  | String c rest => String (lower_char c) (toLowerCase rest)
  end.

(** [\s] in a regular expression: tab, line feed, vertical tab, form feed,
    carriage return, space, no-break space. *)
Definition is_whitespace (c : ascii) : bool :=
  let n := nat_of_ascii c in
  (((9 <=? n) && (n <=? 13)) || (n =? 32) || (n =? 160))%nat.

(** [s.split(/\s+/)]: [cur] is the piece being read, [skipping] says that
    the run of whitespace that closed the last piece is still going on. *)
Fixpoint split_go (cur : string) (skipping : bool) (s : string) : list string :=
  match s with
  | EmptyString => [cur]
  | String c rest =>
      if is_whitespace c then
        if skipping then split_go cur true rest
        else cur :: split_go "" true rest
      else split_go (cur +:+ String c "") false rest
  end.

Definition split_whitespace (s : string) : list string := split_go "" false s.

(** [w.length > 0] *)
Definition nonempty (w : string) : bool := (0 <? String.length w)%nat.

(** Line 116: [word.split(/\s+/).filter(w => w.length > 0)] *)
Definition words (word : string) : list string :=
  List.filter nonempty (split_whitespace word).

(** Line 117 *)
Definition isPhrase (word : string) : bool := (1 <? length (words word))%nat.

Definition hex_digit (upper : bool) (d : nat) : ascii :=
  match d with
  | 0 => "0" | 1 => "1" | 2 => "2" | 3 => "3" | 4 => "4"
  | 5 => "5" | 6 => "6" | 7 => "7" | 8 => "8" | 9 => "9"
  | 10 => if upper then "A" else "a"
  | 11 => if upper then "B" else "b"
  | 12 => if upper then "C" else "c"
  | 13 => if upper then "D" else "d"
  | 14 => if upper then "E" else "e"
  | _ => if upper then "F" else "f"
  end%char.

(** One byte of a percent-encoding: [%XX], capital hexadecimal digits. *)
Definition percent_byte (n : nat) : string :=
  String "%" (String (hex_digit true (n / 16)) (String (hex_digit true (n mod 16)) "")).

Definition is_alnum (c : ascii) : bool :=
  let n := nat_of_ascii c in
  (((48 <=? n) && (n <=? 57)) || ((65 <=? n) && (n <=? 90))
   || ((97 <=? n) && (n <=? 122)))%nat.

Definition one_of (chars : string) (c : ascii) : bool :=
  existsb (Ascii.eqb c) (list_ascii_of_string chars).

(** The characters [encodeURIComponent] leaves as they are. *)
Definition is_unreserved (c : ascii) : bool := is_alnum c || one_of "-_.!~*'()" c.

(** [encodeURIComponent] of one code unit: its UTF-8 bytes (one below
    U+0080, two from there to U+00FF), each as [%XX]. *)
Definition encode_char (c : ascii) : string :=
  let n := nat_of_ascii c in
  if is_unreserved c then String c ""
  else if (n <? 128)%nat then percent_byte n
  else percent_byte (192 + n / 64) +:+ percent_byte (128 + n mod 64).

Fixpoint encodeURIComponent (s : string) : string :=
  match s with
  | EmptyString => ""
  | String c rest => encode_char c +:+ encodeURIComponent rest
  end.

(** [n.toString(16)] for a char code below 256: small hexadecimal digits,
    no padding. *)
Definition toString16 (n : nat) : string :=
  if (n <? 16)%nat then String (hex_digit false n) ""
  else String (hex_digit false (n / 16)) (String (hex_digit false (n mod 16)) "").

(** Lines 195 to 197: [.replace(/[!'()*]/g, c => '%' + c.charCodeAt(0).toString(16))] *)
Fixpoint escape_marks (s : string) : string :=
  match s with
  | EmptyString => ""
  | String c rest =>
      (if one_of "!'()*" c then "%" +:+ toString16 (nat_of_ascii c) else String c "")
        +:+ escape_marks rest
  end.

(** Line 195: the sentence as it stands in the cache key. *)
Definition encodedSentence (sentence : string) : string :=
  escape_marks (encodeURIComponent sentence).

(** The value of two hexadecimal digits, of either case. *)
Definition hex_value (c : ascii) : option nat :=
  let n := nat_of_ascii c in
  if ((48 <=? n) && (n <=? 57))%nat then Some (n - 48)
  else if ((65 <=? n) && (n <=? 70))%nat then Some (n - 55)
  else if ((97 <=? n) && (n <=? 102))%nat then Some (n - 87)
  else None.

Definition byte_value (h l : ascii) : option nat :=
  match hex_value h, hex_value l with
  | Some a, Some b => Some (16 * a + b)
  | _, _ => None
  end.

(** Reading a percent-encoding back, for code units below 256: the inverse
    the injectivity of the encodings is proved with. *)
Fixpoint decode (s : string) : option string :=
  match s with
  | EmptyString => Some ""
  | String c rest =>
      if Ascii.eqb c "%" then
        match rest with
        | String h (String l rest1) =>
            match byte_value h l with
            | Some b =>
                if (b <? 128)%nat then String (ascii_of_nat b) <$> decode rest1
                else
                  match rest1 with
                  | String p (String h2 (String l2 rest2)) =>
                      match byte_value h2 l2 with
                      | Some b2 =>
                          if Ascii.eqb p "%" && (192 <=? b)%nat && (b <? 196)%nat
                             && (128 <=? b2)%nat && (b2 <? 192)%nat
                          then String (ascii_of_nat ((b - 192) * 64 + (b2 - 128)))
                                 <$> decode rest2
                          else None
                      | None => None
                      end
                  | _ => None
                  end
            | None => None
            end
        | _ => None
        end
      else String c <$> decode rest
  end.

(** Every character of [s] passes the test [p]; some character does. *)
Fixpoint all_chars (p : ascii -> bool) (s : string) : bool :=
  match s with
  | EmptyString => true
  | String c rest => p c && all_chars p rest
  end.

Fixpoint some_char (p : ascii -> bool) (s : string) : bool :=
  match s with
  | EmptyString => false
  | String c rest => p c || some_char p rest
  end.

(** [s] holds a character that is no whitespace. *)
Definition has_ink (s : string) : bool := some_char (fun c => negb (is_whitespace c)) s.

(** Letters, digits and [- _ . ~ %]: what is left of a sentence in its key. *)
Definition is_key_safe (c : ascii) : bool := is_alnum c || one_of "-_.~%" c.

End Text.

(** ** The projector on raw values

    [applyDisplayPreferences] as the handler calls it: on whatever value the
    promise chain delivers, with the spreads, the property reads and the
    method calls of the source, each of which may throw. *)

Module Raw.

(** Define property [k]: in place when the object has it, else at the end *)
Fixpoint set_prop (k : string) (x : value) (props : list (string * value))
  : list (string * value) :=
  match props with
  | [] => [(k, x)]
  | (k', v) :: rest =>
      if String.eqb k k' then (k', x) :: rest else (k', v) :: set_prop k x rest
  end.

(** The characters of a string, each a string of its own *)
Fixpoint chars (s : string) : list value :=
  match s with
  | EmptyString => []
  | String c rest => VStr (String c "") :: chars rest
  end.

(** The elements of an array or string under their indices, from [i] on *)
Fixpoint indexed (i : nat) (l : list value) : list (string * value) :=
  match l with
  | [] => []
  | x :: rest => (pretty i, x) :: indexed (S i) rest
  end.

(** [[...v]]: arrays and strings can be iterated, nothing else in a payload *)
Definition spread_array (v : value) : result (list value) :=
  match v with
  | VArr items => Ok items
  | VStr s => Ok (chars s)
  | _ => Throw
  end.

(** [{ ...v }]: the own enumerable properties of [v]; a primitive other than
    a string has none *)
Definition spread_object (v : value) : list (string * value) :=
  match v with
  | VObj props => props
  | VArr items => indexed 0 items
  | VStr s => indexed 0 (chars s)
  | _ => []
  end.

(** [v.slice(0, count)]: a method of arrays and strings only *)
Definition slice (v : value) (count : Z) : result value :=
  match v with
  | VArr items => Ok (VArr (JS.slice0 items count))
  | VStr s =>
      Ok (VStr (string_of_list_ascii (JS.slice0 (list_ascii_of_string s) count)))
  | _ => Throw
  end.

Section Projector.

Variable string_gt : string -> Z -> bool.

(** Lines 77 to 83: the callback of [definitionsToUse.map]. *)
Definition trim_examples (count : Z) (def : value) : result value :=
  let newDef := spread_object def in
  let example := JS.lookup_prop "example" newDef in
  let* more :=
    (if JS.truthy example
     then let* len := JS.get example "length" in js_gt string_gt len count
     else Ok false) in
  if more then
    let* sliced := slice example count in
    Ok (VObj (set_prop "example" sliced newDef))
  else Ok (VObj newDef).

(** Lines 67 to 86 *)
Definition applyDisplayPreferences (data : value) (settings : Settings) : result value :=
  let scope := str_or (definitionScope settings) "relevant" in
  let count := match exampleCount settings with
               | Some n => n
               | None => 1%Z
               end in
  let* definition := JS.get data "definition" in
  let* definitionsToUse := spread_array definition in
  let definitionsToUse :=
    if String.eqb scope "relevant" && (1 <? length definitionsToUse)%nat
    then take 1 definitionsToUse
    else definitionsToUse in
  let* finalDefinitions := map_result (trim_examples count) definitionsToUse in
  Ok (VObj (set_prop "definition" (VArr finalDefinitions) (spread_object data))).

End Projector.

(** A property that an object literal may leave out *)
Definition optional_prop (k : string) (o : option value) : list (string * value) :=
  match o with
  | Some v => [(k, v)]
  | None => []
  end.

(** The object a sense record stands for: [{ pos, text, translation, example }],
    in the order the adapters write the properties. *)
Definition value_of_sense (d : Sense) : value :=
  VObj ([("pos", def_pos d); ("text", def_text d)]
          ++ optional_prop "translation" (def_translation d)
          ++ optional_prop "example" (VArr <$> def_example d)).

(** The object an entry record stands for:
    [{ word, translation, pos, verbs, pronunciation, definition }]. *)
Definition value_of_entry (e : Entry) : value :=
  VObj ([("word", word e)]
          ++ optional_prop "translation" (translation e)
          ++ [("pos", VArr (pos e)); ("verbs", VArr (verbs e));
              ("pronunciation", VArr (pronunciation e));
              ("definition", VArr (value_of_sense <$> definition e))]).

End Raw.

(** ** The message handlers

    One request, run against what the settings store and the cache return
    and against what the network answers.  The result is the response handed
    to [sendResponse] together with the call of [chrome.storage.local.set],
    if the handler makes one. *)

Module Handler.

(** What a [fetch] followed by [res.json()] comes to: the request fails, the
    body is no JSON, or the body parses to a value. *)
Inductive fetched : Type :=
| NetworkError
| BadBody
| Body (v : value).

(** A settled promise.  The message of a rejection is [None] where the
    engine words it (a [TypeError], a failed fetch, a body that does not
    parse). *)
Inductive outcome (A : Type) : Type :=
| Resolved (a : A)
| Rejected (message : option string).
Arguments Resolved {A} a.
Arguments Rejected {A} message.

Definition and_then {A B : Type} (p : outcome A) (k : A -> outcome B) : outcome B :=
  match p with
  | Resolved a => k a
  | Rejected m => Rejected m
  end.

(** A callback of [then] that throws rejects the promise. *)
Definition of_result {A : Type} (r : result A) : outcome A :=
  match r with
  | Ok a => Resolved a
  | Throw => Rejected None
  end.

Inductive response : Type :=
| Success (data : value) (ttsEnabled : bool)
| Failure (message : option string)
| NoLanguage (message : string).

(** [fetch(url).then(res => res.json())] *)
Definition fetch_json (net : string -> fetched) (url : string) : outcome value :=
  match net url with
  | Body v => Resolved v
  | NetworkError | BadBody => Rejected None
  end.

(** Line 133: [fetch(url).then(res => res.json().catch(() => null))] *)
Definition fetch_json_or_null (net : string -> fetched) (url : string) : outcome value :=
  match net url with
  | Body v => Resolved v
  | BadBody => Resolved VNull
  | NetworkError => Rejected None
  end.

(** Line 112 *)
Definition langParam (targetLanguage : string) : string :=
  if negb (String.eqb targetLanguage "") && negb (String.eqb targetLanguage "none")
  then "?lang=" +:+ Text.encodeURIComponent targetLanguage
  else "".

(** Line 113 *)
Definition geminiUrl (word targetLanguage : string) : string :=
  "http://localhost:3000/api/gemini/" +:+ Text.encodeURIComponent word
    +:+ langParam targetLanguage.

(** Lines 130 and 159 *)
Definition cambridgeUrl (word : string) : string :=
  "http://localhost:3000/api/dictionary/en/" +:+ word.

(** Line 154 *)
Definition mwUrl (word mwApiKey : string) : string :=
  "https://www.dictionaryapi.com/api/v3/references/collegiate/json/" +:+ word
    +:+ "?key=" +:+ mwApiKey.

(** [settings.ttsEnabled || false] *)
Definition tts (settings : Settings) : bool := default false (ttsEnabled settings).

Section Handlers.

Variable string_gt : string -> Z -> bool.
Variable net : string -> fetched.

(** [cambridgeData.pronunciation.find(p => p.url)] *)
Fixpoint find_url (l : list value) : result value :=
  match l with
  | [] => Ok VUndef
  | p :: rest =>
      let* url := JS.get p "url" in
      if JS.truthy url then Ok p else find_url rest
  end.

(** Lines 137 to 145: the audio of the Cambridge answer goes into the first
    pronunciation of the Gemini entry.  [normalizeGeminiData] puts one object
    there; with nothing there, or [undefined] or [null], the assignment
    throws. *)
Definition enrich (normalizedGemini : Entry) (cambridgeData : value) : result Entry :=
  let* prons := JS.and_then cambridgeData (JS.get cambridgeData "pronunciation") in
  let* some :=
    (if JS.truthy prons
     then let* len := JS.get prons "length" in js_gt string_gt len 0
     else Ok false) in
  if some then
    let* items := JS.array_receiver prons in
    let* found := find_url items in
    let* cambridgePron := (if JS.truthy found then Ok found else JS.idx prons 0) in
    if JS.truthy cambridgePron then
      match pronunciation normalizedGemini with
      | VObj first :: others =>
          let* url := JS.get cambridgePron "url" in
          let first := Raw.set_prop "url" (JS.or_else url (VStr "")) first in
          let* pron := JS.get cambridgePron "pron" in
          let first :=
            if negb (JS.truthy (JS.lookup_prop "pron" first)) && JS.truthy pron
            then Raw.set_prop "pron" pron first
            else first in
          Ok {| word := word normalizedGemini;
                translation := translation normalizedGemini;
                pos := pos normalizedGemini;
                verbs := verbs normalizedGemini;
                pronunciation := VObj first :: others;
                definition := definition normalizedGemini |}
      | _ => Throw
      end
    else Ok normalizedGemini
  else Ok normalizedGemini.

(** Lines 124 to 126 and 135 to 136 *)
Definition adapt_gemini (geminiData : value) : outcome Entry :=
  and_then (of_result (normalizeGeminiData geminiData))
    (fun normalizedGemini =>
       match normalizedGemini with
       | Some e => Resolved e
       | None => Rejected (Some "Gemini AI definition not found or invalid format.")
       end).

(** Lines 110 to 148: the promise of the Gemini source. *)
Definition gemini_promise (word targetLanguage : string) : outcome value :=
  if Text.isPhrase word then
    and_then (fetch_json net (geminiUrl word targetLanguage))
      (fun geminiData =>
         and_then (adapt_gemini geminiData)
           (fun normalizedGemini => Resolved (Raw.value_of_entry normalizedGemini)))
  else
    and_then (fetch_json net (geminiUrl word targetLanguage))
      (fun geminiData =>
         and_then (fetch_json_or_null net
                     (cambridgeUrl (Text.encodeURIComponent word)))
           (fun cambridgeData =>
              and_then (adapt_gemini geminiData)
                (fun normalizedGemini =>
                   and_then (of_result (enrich normalizedGemini cambridgeData))
                     (fun enriched => Resolved (Raw.value_of_entry enriched))))).

(** Lines 155 to 157 *)
Definition mw_promise (word mwApiKey : string) : outcome value :=
  and_then (fetch_json net (mwUrl word mwApiKey))
    (fun data =>
       and_then (of_result (normalizeMwData string_gt data))
         (fun normalized =>
            Resolved (match normalized with
                      | Some e => Raw.value_of_entry e
                      | None => VNull
                      end))).

(** Lines 163 to 175: the check of what the source delivered, the
    projection, the write to the cache and the response. *)
Definition finish (settings : Settings) (key : string) (apiPromise : outcome value)
  : response * option (string * value) :=
  let projected :=
    and_then apiPromise
      (fun fullData =>
         and_then (of_result (JS.and_then fullData (JS.get fullData "word")))
           (fun w =>
              if JS.truthy w
              then of_result (Raw.applyDisplayPreferences string_gt fullData settings)
              else Rejected (Some "Definition not found or API returned invalid format."))) in
  match projected with
  | Resolved finalData => (Success finalData (tts settings), Some (key, finalData))
  | Rejected message => (Failure message, None)
  end.

(** Lines 91 to 180: the handler of [getDefinition].  [cached] is what the
    store returns under a key, [undefined] when it holds nothing there. *)
Definition getDefinition (settings : Settings) (cached : string -> value) (word : string)
  : response * option (string * value) :=
  let word := Text.toLowerCase word in
  let source := str_or (preferredSource settings) "cambridge" in
  let targetLanguage := str_or (targetLanguage settings) "none" in
  let key := displaySettingsCacheKey settings word in
  if JS.truthy (cached key) then (Success (cached key) (tts settings), None)
  else if String.eqb source "gemini" then
    finish settings key (gemini_promise word targetLanguage)
  else if String.eqb source "merriam-webster" then
    match mwApiKey settings with
    | Some k =>
        if String.eqb k ""
        then (Failure (Some "Merriam-Webster API key is not set."), None)
        else finish settings key (mw_promise word k)
    | None => (Failure (Some "Merriam-Webster API key is not set."), None)
    end
  else finish settings key (fetch_json net (cambridgeUrl word)).

(** Line 198 *)
Definition sentenceCacheKey (sentence targetLanguage : string) : string :=
  "qdp_sentence_" +:+ Text.encodedSentence sentence +:+ "_" +:+ targetLanguage.

(** Lines 208 to 210 *)
Definition translateUrl (sentence targetLanguage : string) : string :=
  "http://localhost:3000/api/translate/" +:+ Text.encodeURIComponent sentence
    +:+ "?lang=" +:+ Text.encodeURIComponent targetLanguage.

(** Lines 214 to 217: [if (data.error) throw new Error(data.error)] *)
Definition check_translation (data : value) : outcome value :=
  and_then (of_result (JS.get data "error"))
    (fun error =>
       if JS.truthy error
       then Rejected (match JS.to_string error with
                      | Ok text => Some text
                      | Throw => None
                      end)
       else Resolved data).

(** Lines 182 to 230: the handler of [translateSentence]. *)
Definition translateSentence (settings : Settings) (cached : string -> value)
    (sentence : string) : response * option (string * value) :=
  match targetLanguage settings with
  | None =>
      (NoLanguage "Please select a target language in options setting to proceed", None)
  | Some targetLanguage =>
      if String.eqb targetLanguage "" || String.eqb targetLanguage "none"
      then (NoLanguage "Please select a target language in options setting to proceed", None)
      else
        let cacheKey := sentenceCacheKey sentence targetLanguage in
        if JS.truthy (cached cacheKey) then (Success (cached cacheKey) (tts settings), None)
        else
          match and_then (fetch_json net (translateUrl sentence targetLanguage))
                  check_translation with
          | Resolved data => (Success data (tts settings), Some (cacheKey, data))
          | Rejected message => (Failure message, None)
          end
  end.

End Handlers.

End Handler.

(** ** Sample requests

    Settings, answers of the three services and networks that serve them,
    for the examples that go with the theorems. *)

Module Sample.

Definition gt : string -> Z -> bool := fun _ _ => false.

Definition offline : string -> Handler.fetched := fun _ => Handler.NetworkError.

Definition nothing_cached : string -> value := fun _ => VUndef.

(** A network that answers at one address, with [otherwise] elsewhere. *)
Definition serve (url : string) (answer otherwise : Handler.fetched)
  : string -> Handler.fetched :=
  fun u => if String.eqb u url then answer else otherwise.

(** A store that holds one value. *)
Definition holding (key : string) (v : value) : string -> value :=
  fun k => if String.eqb k key then v else VUndef.

Definition gemini_settings : Settings :=
  mkSettings (Some "gemini") None (Some "es") None None None.

Definition mw_settings : Settings :=
  mkSettings (Some "merriam-webster") (Some "k-1") None None None None.

Definition cambridge_settings : Settings :=
  mkSettings None None None (Some "all") (Some 1%Z) (Some true).

Definition gemini_answer : value :=
  VObj [("word", VStr "run"); ("pronunciation", VStr "/run/");
        ("translation", VStr "correr");
        ("forms",
         VArr [VObj [("partOfSpeech", VStr "verb");
                     ("definitions",
                      VArr [VObj [("definition", VStr "to move fast on foot");
                                  ("examples", VArr [VStr "I run."; VStr "They ran."])]])];
               VObj [("partOfSpeech", VStr "noun");
                     ("definitions",
                      VArr [VObj [("definition", VStr "an act of running")]])]])].

Definition gemini_phrase_answer : value :=
  VObj [("phrase", VStr "give up");
        ("forms",
         VArr [VObj [("partOfSpeech", VStr "phrasal verb");
                     ("definitions",
                      VArr [VObj [("definition", VStr "to stop trying")]])]])].

Definition mw_answer : value :=
  VArr [VObj [("meta", VObj [("id", VStr "run:1")]);
              ("hwi", VObj [("hw", VStr "run")]);
              ("fl", VStr "verb");
              ("shortdef", VArr [VStr "to go faster than a walk"]);
              ("def", VArr [VObj [("sseq", VArr [])]])]].

Definition cambridge_entry : Entry :=
  {| word := VStr "run"; translation := None; pos := [VStr "verb"]; verbs := [];
     pronunciation :=
       [VObj [("lang", VStr "uk"); ("pron", VStr "/ran/"); ("url", VStr "")];
        VObj [("lang", VStr "us"); ("pron", VStr "/run/");
              ("url", VStr "https://dictionary.cambridge.org/media/run.mp3")]];
     definition :=
       [{| def_pos := VStr "verb"; def_text := VStr "to move fast on foot";
           def_translation := None;
           def_example := Some [VObj [("text", VStr "I run.")];
                                VObj [("text", VStr "They ran.")]] |};
        {| def_pos := VStr "verb"; def_text := VStr "to manage";
           def_translation := None; def_example := Some [] |}] |}.

Definition cambridge_answer : value := Raw.value_of_entry cambridge_entry.

End Sample.

(** * Theorems *)

(** ** The error monad *)

Lemma bind_Ok {A B : Type} (m : result A) (k : A -> result B) (b : B) :
  bind m k = Ok b -> exists a, m = Ok a /\ k a = Ok b.
Proof. destruct m as [a|]; simpl; [eauto | discriminate]. Qed.

Lemma bind_Throw_l {A B : Type} (k : A -> result B) : bind Throw k = Throw.
Proof. reflexivity. Qed.

(** Take apart a hypothesis that says a chain of calls returned. *)
Ltac inv_ok :=
  repeat match goal with
    | H : bind _ _ = Ok _ |- _ =>
        let a := fresh "a" in
        let Ha := fresh "Ha" in
        apply bind_Ok in H as (a & Ha & H)
    | H : Ok _ = Ok _ |- _ => injection H as H
    | H : Throw = Ok _ |- _ => discriminate H
    | H : Some _ = Some _ |- _ => injection H as H
    | H : None = Some _ |- _ => discriminate H
    | H : (if ?c then _ else _) = Ok _ |- _ => destruct c eqn:?
    end.

Lemma map_result_length {A B : Type} (f : A -> result B) (a : list A) (b : list B) :
  map_result f a = Ok b -> length b = length a.
Proof.
  revert b. induction a as [|x a IH]; intros b H; simpl in H.
  - inv_ok. now subst.
  - inv_ok. subst b. simpl. f_equal. now apply IH.
Qed.

(** ** Provider adapters *)

Section AdapterFacts.

Variable gt : string -> Z -> bool.



(** What an entry of Provider A is made of. *)
Lemma normalizeMwData_Some (mwData : value) (e : Entry) :
  normalizeMwData gt mwData = Ok (Some e) ->
  exists entry meta id ids shortdef shortdef0 fl example pronunciation,
    JS.idx mwData 0 = Ok entry /\
    JS.get entry "meta" = Ok meta /\ JS.get meta "id" = Ok id /\
    JS.string_receiver id = Ok ids /\
    JS.get entry "shortdef" = Ok shortdef /\ JS.idx shortdef 0 = Ok shortdef0 /\
    JS.get entry "fl" = Ok fl /\
    e = {| word := VStr (JS.split_head ":" ids);
           translation := None;
           pos := [JS.or_else fl (VStr "unknown")];
           verbs := [];
           pronunciation := [pronunciation];
           definition :=
             [{| def_pos := JS.or_else fl (VStr "unknown");
                 def_text := JS.or_else shortdef0 (VStr "No definition found.");
                 def_translation := None;
                 def_example := Some example |}] |}.
Proof.
  unfold normalizeMwData. intros H. inv_ok. subst e. simpl.
  repeat eexists; eauto.
Qed.

(** What an entry of Provider B is made of. *)
Lemma normalizeGeminiData_Some (aiData : value) (e : Entry) :
  normalizeGeminiData aiData = Ok (Some e) ->
  exists forms items w phrase,
    JS.get aiData "forms" = Ok forms /\ forms = VArr items /\
    JS.get aiData "word" = Ok w /\ JS.get aiData "phrase" = Ok phrase /\
    map_result gemini_form items = Ok (definition e) /\
    word e = (if JS.truthy w then w else phrase) /\
    pos e = map def_pos (definition e).
Proof.
  unfold normalizeGeminiData. intros H. inv_ok. subst e. simpl.
  match goal with H : JS.array_receiver ?f = Ok _ |- _ =>
    destruct f; simpl in H; try discriminate H; injection H as ->
  end.
  repeat eexists; eauto.
Qed.



End AdapterFacts.




(** ** The preference projector *)

Lemma applyDisplayPreferences_definition (data : Entry) (settings : Settings) :
  definition (applyDisplayPreferences data settings)
  = map (trim_examples (limit_of settings)) (kept data settings).
Proof. reflexivity. Qed.

Lemma kept_relevant (data : Entry) (settings : Settings) :
  str_or (definitionScope settings) "relevant" = "relevant" ->
  kept data settings = take 1 (definition data).
Proof.
  intros H. unfold kept. rewrite H. simpl.
  destruct (1 <? length (definition data))%nat eqn:E; [reflexivity|].
  apply Nat.ltb_ge in E. symmetry. now apply take_ge.
Qed.

Lemma kept_other (data : Entry) (settings : Settings) :
  str_or (definitionScope settings) "relevant" <> "relevant" ->
  kept data settings = definition data.
Proof.
  intros H. unfold kept.
  destruct (String.eqb_spec (str_or (definitionScope settings) "relevant") "relevant");
    [contradiction | reflexivity].
Qed.

(** A kept sense is the sense at the same index of the input. *)
Lemma kept_lookup (data : Entry) (settings : Settings) (i : nat) (d : Sense) :
  kept data settings !! i = Some d -> definition data !! i = Some d.
Proof.
  unfold kept.
  destruct (_ && _); [|trivial].
  intros H. apply lookup_take_Some in H. tauto.
Qed.

Lemma slice0_nonneg {A : Type} (a : list A) (k : Z) :
  (0 <= k)%Z -> JS.slice0 a k = take (Z.to_nat k) a.
Proof.
  intros Hk. unfold JS.slice0.
  destruct (k <? 0)%Z eqn:E; [apply Z.ltb_lt in E; lia|].
  destruct (Z.le_gt_cases k (Z.of_nat (length a))).
  - now rewrite Z.min_l.
  - rewrite Z.min_r by lia. rewrite Nat2Z.id.
    rewrite !take_ge; [reflexivity | lia | lia].
Qed.

(** Trimming touches nothing but the examples, and for a limit that is not
    negative leaves the first [k] of them. *)
Lemma trim_examples_fields (k : Z) (d : Sense) :
  def_pos (trim_examples k d) = def_pos d /\
  def_text (trim_examples k d) = def_text d /\
  def_translation (trim_examples k d) = def_translation d.
Proof.
  unfold trim_examples. destruct (def_example d); [|auto].
  destruct (_ <? _)%Z; auto.
Qed.

Lemma trim_examples_example (k : Z) (d : Sense) :
  (0 <= k)%Z ->
  def_example (trim_examples k d) = take (Z.to_nat k) <$> def_example d.
Proof.
  intros Hk. unfold trim_examples.
  destruct (def_example d) as [ex|] eqn:E; [|now rewrite E].
  destruct (k <? Z.of_nat (length ex))%Z eqn:Hlt; simpl.
  - now rewrite slice0_nonneg.
  - rewrite E. simpl. apply Z.ltb_ge in Hlt. rewrite take_ge; [reflexivity | lia].
Qed.

Lemma trim_examples_idempotent (k : Z) (d : Sense) :
  (0 <= k)%Z -> trim_examples k (trim_examples k d) = trim_examples k d.
Proof.
  intros Hk.
  destruct (def_example d) as [ex|] eqn:E.
  - destruct (k <? Z.of_nat (length ex))%Z eqn:Hlt.
    + assert (trim_examples k d
              = {| def_pos := def_pos d; def_text := def_text d;
                   def_translation := def_translation d;
                   def_example := Some (JS.slice0 ex k) |}) as ->
        by (unfold trim_examples; now rewrite E, Hlt).
      unfold trim_examples. simpl.
      rewrite slice0_nonneg by assumption.
      apply Z.ltb_lt in Hlt.
      rewrite length_take_le by lia. rewrite Z2Nat.id by assumption.
      now rewrite Z.ltb_irrefl.
    + assert (trim_examples k d = d) as ->
        by (unfold trim_examples; now rewrite E, Hlt).
      unfold trim_examples; now rewrite E, Hlt.
  - assert (trim_examples k d = d) as ->
      by (unfold trim_examples; now rewrite E).
    unfold trim_examples; now rewrite E.
Qed.

(** C2, as amended.  An entry returned by either adapter has as many parts
    of speech as senses.  The projector copies [pos] as it is; its output
    keeps the invariant exactly when it keeps every sense, that is, unless
    the scope is [relevant] and the entry has more than one sense. *)
Theorem parallel_arrays
    (gt : string -> Z -> bool) (mwData aiData : value) (e : Entry) (settings : Settings) :
  (normalizeMwData gt mwData = Ok (Some e) -> parallel e) /\
  (normalizeGeminiData aiData = Ok (Some e) -> parallel e) /\
  pos (applyDisplayPreferences e settings) = pos e /\
  (parallel e ->
   (parallel (applyDisplayPreferences e settings) <->
    (str_or (definitionScope settings) "relevant" <> "relevant"
     \/ length (definition e) <= 1))).
Proof.
  split; [|split; [|split]].
  - intros H. apply normalizeMwData_Some in H.
    destruct H as (? & ? & ? & ? & ? & ? & ? & ? & ? & H). 
    destruct H as (_ & _ & _ & _ & _ & _ & _ & ->). reflexivity.
  - intros H. apply normalizeGeminiData_Some in H.
    destruct H as (? & ? & ? & ? & _ & _ & _ & _ & _ & _ & Hpos).
    unfold parallel. rewrite Hpos. apply length_map.
  - reflexivity.
  - unfold parallel. intros Hpar.
    rewrite applyDisplayPreferences_definition, length_map. simpl.
    destruct (String.eq_dec (str_or (definitionScope settings) "relevant") "relevant")
      as [Hrel|Hrel].
    + rewrite kept_relevant by assumption. rewrite length_take. split.
      * intros H. right. lia.
      * intros [H|H]; [contradiction | lia].
    + rewrite kept_other by assumption. split; [now left | intros _; exact Hpar].
Qed.

Lemma parallel_arrays_witness :
  let e := {| word := VStr "run"; translation := None; pos := [VStr "verb"]; verbs := [];
              pronunciation := [mk_pronunciation (VStr "") (VStr "")];
              definition := [{| def_pos := VStr "verb"; def_text := VStr "move fast";
                                def_translation := None; def_example := Some [] |}] |} in
  parallel e /\
  parallel (applyDisplayPreferences e (mkSettings None None None None None None)).
Proof.
  intros e.
  pose proof (parallel_arrays (fun _ _ => false)
                (VArr [VObj [("meta", VObj [("id", VStr "run:1")]); ("fl", VStr "verb");
                             ("shortdef", VArr [VStr "move fast"])]])
                VUndef e (mkSettings None None None None None None))
    as (Hmw & _ & _ & Hproj).
  assert (parallel e) as Hpar by (apply Hmw; reflexivity).
  split; [exact Hpar|].
  apply (Hproj Hpar). right. simpl. lia.
Defined.

(** C2 as stated fails for the projector: two forms adapt to an entry with
    two senses and two parts of speech, and the default scope keeps one
    sense and both parts of speech. *)
Lemma projector_breaks_parallel_counterexample :
  exists e,
    normalizeGeminiData
      (VObj [("word", VStr "run");
             ("forms",
              VArr [VObj [("partOfSpeech", VStr "verb");
                          ("definitions", VArr [VObj [("definition", VStr "move fast")]])];
                    VObj [("partOfSpeech", VStr "noun");
                          ("definitions", VArr [VObj [("definition", VStr "an act of running")]])]])])
    = Ok (Some e) /\
    parallel e /\
    length (pos (applyDisplayPreferences e (mkSettings None None None None None None))) = 2 /\
    length (definition (applyDisplayPreferences e (mkSettings None None None None None None))) = 1.
Proof. eexists. repeat split; reflexivity. Qed.

(** Projecting again cuts no further sense. *)
Lemma kept_applyDisplayPreferences (e : Entry) (settings : Settings) :
  kept (applyDisplayPreferences e settings) settings
  = definition (applyDisplayPreferences e settings).
Proof.
  destruct (String.eq_dec (str_or (definitionScope settings) "relevant") "relevant")
    as [Hrel|Hrel].
  - rewrite kept_relevant by assumption.
    apply take_ge.
    rewrite applyDisplayPreferences_definition, length_map.
    rewrite kept_relevant by assumption. rewrite length_take. lia.
  - now rewrite kept_other.
Qed.

(** C4.  Projecting a projected entry with the same preferences changes
    nothing, for every entry and every display preferences (scope any
    string or absent, example count a non-negative integer or absent). *)
Theorem applyDisplayPreferences_idempotent (e : Entry) (settings : Settings) :
  (0 <= limit_of settings)%Z ->
  applyDisplayPreferences (applyDisplayPreferences e settings) settings
  = applyDisplayPreferences e settings.
Proof.
  intros Hk.
  assert (definition (applyDisplayPreferences (applyDisplayPreferences e settings) settings)
          = definition (applyDisplayPreferences e settings)) as Heq.
  { rewrite (applyDisplayPreferences_definition (applyDisplayPreferences e settings)).
    rewrite kept_applyDisplayPreferences, applyDisplayPreferences_definition.
    rewrite <- list_fmap_compose.
    apply list_fmap_ext. intros i d _. simpl.
    now apply trim_examples_idempotent. }
  transitivity
    {| word := word (applyDisplayPreferences e settings);
       translation := translation (applyDisplayPreferences e settings);
       pos := pos (applyDisplayPreferences e settings);
       verbs := verbs (applyDisplayPreferences e settings);
       pronunciation := pronunciation (applyDisplayPreferences e settings);
       definition :=
         definition (applyDisplayPreferences (applyDisplayPreferences e settings) settings) |}.
  - reflexivity.
  - rewrite Heq. now destruct (applyDisplayPreferences e settings).
Qed.

Lemma applyDisplayPreferences_idempotent_witness :
  let e := {| word := VStr "run"; translation := None;
              pos := [VStr "verb"; VStr "noun"]; verbs := []; pronunciation := [];
              definition :=
                [{| def_pos := VStr "verb"; def_text := VStr "move fast";
                    def_translation := None;
                    def_example := Some [VStr "a"; VStr "b"; VStr "c"] |};
                 {| def_pos := VStr "noun"; def_text := VStr "an act of running";
                    def_translation := None; def_example := Some [VStr "d"] |}] |} in
  let settings := mkSettings None None None (Some "all") (Some 2%Z) None in
  applyDisplayPreferences (applyDisplayPreferences e settings) settings
  = applyDisplayPreferences e settings.
Proof.
  intros e settings.
  apply (applyDisplayPreferences_idempotent e settings).
  unfold limit_of, settings. simpl. lia.
Defined.

(** C5.  With scope [relevant] the projected entry has [min 1 N] senses:
    the first sense of the input, its examples trimmed, when there is one.
    With scope [all] it has all [N] senses, in the order of the input, each
    with its examples trimmed. *)
Theorem applyDisplayPreferences_scope (e : Entry) (settings : Settings) :
  (definitionScope settings = Some "relevant" ->
   length (definition (applyDisplayPreferences e settings))
   = Nat.min 1 (length (definition e)) /\
   definition (applyDisplayPreferences e settings)
   = map (trim_examples (limit_of settings)) (take 1 (definition e))) /\
  (definitionScope settings = Some "all" ->
   length (definition (applyDisplayPreferences e settings)) = length (definition e) /\
   definition (applyDisplayPreferences e settings)
   = map (trim_examples (limit_of settings)) (definition e)).
Proof.
  split; intros Hscope; rewrite applyDisplayPreferences_definition.
  - rewrite kept_relevant by now rewrite Hscope.
    split; [|reflexivity]. now rewrite length_map, length_take.
  - rewrite kept_other by now rewrite Hscope.
    split; [|reflexivity]. now rewrite length_map.
Qed.

Lemma applyDisplayPreferences_scope_witness :
  let d1 := {| def_pos := VStr "verb"; def_text := VStr "move fast";
               def_translation := None; def_example := Some [VStr "a"; VStr "b"] |} in
  let d2 := {| def_pos := VStr "noun"; def_text := VStr "an act of running";
               def_translation := None; def_example := None |} in
  let e := {| word := VStr "run"; translation := None;
              pos := [VStr "verb"; VStr "noun"]; verbs := []; pronunciation := [];
              definition := [d1; d2] |} in
  definition (applyDisplayPreferences e (mkSettings None None None (Some "relevant") (Some 1%Z) None))
  = [trim_examples 1 d1] /\
  definition (applyDisplayPreferences e (mkSettings None None None (Some "all") (Some 1%Z) None))
  = [trim_examples 1 d1; trim_examples 1 d2].
Proof.
  intros d1 d2 e. split.
  - refine (proj2 (proj1 (applyDisplayPreferences_scope e
             (mkSettings None None None (Some "relevant") (Some 1%Z) None)) _)).
    reflexivity.
  - refine (proj2 (proj2 (applyDisplayPreferences_scope e
             (mkSettings None None None (Some "all") (Some 1%Z) None)) _)).
    reflexivity.
Defined.

(** A kept sense is the input sense at the same index, trimmed. *)
Lemma applyDisplayPreferences_lookup (e : Entry) (settings : Settings) (i : nat) (d' : Sense) :
  definition (applyDisplayPreferences e settings) !! i = Some d' ->
  exists d, definition e !! i = Some d /\ d' = trim_examples (limit_of settings) d.
Proof.
  rewrite applyDisplayPreferences_definition, list_lookup_fmap.
  destruct (kept e settings !! i) as [d|] eqn:E; simpl; [|discriminate].
  intros [= <-]. exists d. split; [now apply kept_lookup in E | reflexivity].
Qed.

(** C6.  With example count [k] every kept sense has at most [k] examples,
    the first [k] of the examples the sense had in the input (all of them
    when there were at most [k]); its other fields are those of the input.
    When the example count is absent from the settings the limit is 1. *)
Theorem applyDisplayPreferences_examples
    (e : Entry) (settings : Settings) (i : nat) (d' : Sense) :
  definition (applyDisplayPreferences e settings) !! i = Some d' ->
  forall k : Z,
    (exampleCount settings = Some k /\ (0 <= k)%Z) \/ (exampleCount settings = None /\ k = 1%Z) ->
    exists d,
      definition e !! i = Some d /\
      def_example d' = take (Z.to_nat k) <$> def_example d /\
      (forall ex', def_example d' = Some ex' -> (Z.of_nat (length ex') <= k)%Z) /\
      (forall ex, def_example d = Some ex -> (Z.of_nat (length ex) <= k)%Z ->
                  def_example d' = Some ex) /\
      def_pos d' = def_pos d /\ def_text d' = def_text d /\
      def_translation d' = def_translation d.
Proof.
  intros Hd' k Hk.
  assert (limit_of settings = k /\ (0 <= k)%Z) as [Hlim Hk0].
  { unfold limit_of. destruct Hk as [[-> ?]|[-> ->]]; split; (reflexivity || lia). }
  apply applyDisplayPreferences_lookup in Hd' as (d & Hd & ->).
  rewrite Hlim. exists d. split; [assumption|].
  pose proof (trim_examples_example k d Hk0) as Hex.
  pose proof (trim_examples_fields k d) as (Hp & Ht & Htr).
  split; [assumption|]. split; [|split; [|auto]].
  - intros ex' Hex'. rewrite Hex in Hex'.
    destruct (def_example d) as [ex|]; simpl in Hex'; [|discriminate].
    injection Hex' as <-. rewrite length_take. lia.
  - intros ex Hd0 Hlen. rewrite Hex, Hd0. simpl. f_equal. apply take_ge. lia.
Qed.

Lemma applyDisplayPreferences_examples_witness :
  let d := {| def_pos := VStr "verb"; def_text := VStr "move fast";
              def_translation := None;
              def_example := Some [VStr "a"; VStr "b"; VStr "c"] |} in
  let e := {| word := VStr "run"; translation := None;
              pos := [VStr "verb"]; verbs := []; pronunciation := [];
              definition := [d] |} in
  exists d0,
    definition e !! 0 = Some d0 /\
    def_example (trim_examples 1 d) = take (Z.to_nat 1) <$> def_example d0 /\
    (forall ex', def_example (trim_examples 1 d) = Some ex' -> (Z.of_nat (length ex') <= 1)%Z) /\
    (forall ex, def_example d0 = Some ex -> (Z.of_nat (length ex) <= 1)%Z ->
                def_example (trim_examples 1 d) = Some ex) /\
    def_pos (trim_examples 1 d) = def_pos d0 /\ def_text (trim_examples 1 d) = def_text d0 /\
    def_translation (trim_examples 1 d) = def_translation d0.
Proof.
  intros d e.
  apply (applyDisplayPreferences_examples e (mkSettings None None None None None None)
           0 (trim_examples 1 d)).
  - reflexivity.
  - right. split; reflexivity.
Defined.

(** The scenario of the specification: one form of Provider B, adapted and
    projected with scope [relevant] and one example. *)
Example gemini_end_to_end :
  bind (normalizeGeminiData
          (VObj [("word", VStr "run");
                 ("forms",
                  VArr [VObj [("partOfSpeech", VStr "verb");
                              ("definitions",
                               VArr [VObj [("definition", VStr "move fast");
                                           ("examples", VArr [VStr "He can run fast."])]])]])]))
       (fun r => bind (check_fullData r)
                   (fun e => Ok (definition
                                   (applyDisplayPreferences e
                                      (mkSettings (Some "gemini") None None (Some "relevant")
                                         (Some 1%Z) None)))))
  = Ok [{| def_pos := VStr "verb"; def_text := VStr "move fast";
           def_translation := Some VNull;
           def_example := Some [VObj [("text", VStr "He can run fast.");
                                      ("translation", VNull)]] |}].
Proof. reflexivity. Qed.

(** Why the example count must not be negative: [slice(0, -1)] drops the
    last example, each time it is applied. *)
Remark negative_count_drops_last :
  let d := {| def_pos := VStr "verb"; def_text := VStr "move fast"; def_translation := None;
              def_example := Some [VStr "a"; VStr "b"; VStr "c"] |} in
  def_example (trim_examples (-1) d) = Some [VStr "a"; VStr "b"] /\
  def_example (trim_examples (-1) (trim_examples (-1) d)) = Some [VStr "a"].
Proof. split; reflexivity. Qed.

(** ** The audio bucket of Provider A *)

Lemma subdir_bix (rest : string) : subdir ("bix" +:+ rest) = "bix".
Proof. reflexivity. Qed.

Lemma subdir_gg (rest : string) : subdir ("gg" +:+ rest) = "gg".
Proof. reflexivity. Qed.

Lemma subdir_number (c : ascii) (rest : string) :
  JS.is_digit c = true -> subdir (String "_" (String c rest)) = "number".
Proof. intros H. unfold subdir. simpl. now rewrite H. Qed.

Lemma subdir_other (token : string) :
  JS.startsWith "bix" token = false ->
  JS.startsWith "gg" token = false ->
  JS.match_underscore_digit token = false ->
  subdir token = JS.charAt0 token.
Proof. intros H1 H2 H3. unfold subdir. now rewrite H1, H2, H3. Qed.

(** The bucket is decided by the first three characters. *)
Lemma subdir_prefix (token : string) : subdir token = subdir (String.substring 0 3 token).
Proof. now destruct token as [|c1 [|c2 [|c3 rest]]]. Qed.

Lemma append_cons (c : ascii) (s t : string) : String c s +:+ t = String c (s +:+ t).
Proof. reflexivity. Qed.

Lemma append_nil_l (t : string) : "" +:+ t = t.
Proof. reflexivity. Qed.

(** [startsWith] is what its name says. *)
Lemma startsWith_spec (p s : string) :
  JS.startsWith p s = true <-> exists rest, s = p +:+ rest.
Proof.
  revert s. induction p as [|c p IH]; intros s; simpl.
  - split; eauto.
  - destruct s as [|c' s].
    + split; [discriminate | intros [? [=]]].
    + setoid_rewrite append_cons.
      destruct (Ascii.eqb_spec c c') as [->|Hne]; simpl.
      * rewrite IH. split; intros [rest H]; exists rest; congruence.
      * split; [discriminate | intros [? [=]]; congruence].
Qed.

(** A first pronunciation with a sound is filed under the address of its
    audio token. *)
Lemma mw_pronunciation_sound (entry hwi prs prs0 sound p : value) (token : string) :
  JS.get entry "hwi" = Ok hwi -> JS.get hwi "prs" = Ok prs ->
  JS.idx prs 0 = Ok prs0 -> JS.get prs0 "sound" = Ok sound ->
  JS.get sound "audio" = Ok (VStr token) ->
  mw_pronunciation entry = Ok p ->
  exists pron, p = mk_pronunciation pron (VStr (audio_url token)).
Proof.
  intros Hhwi Hprs Hprs0 Hsound Haudio.
  assert (exists q, sound = VObj q) as [q ->].
  { destruct sound as [| |b|n|s|l|q]; simpl in Haudio; try discriminate Haudio; eauto;
      injection Haudio as Haudio; destruct (String.eqb "audio" "length"); discriminate. }
  assert (exists q0, prs0 = VObj q0) as [q0 ->].
  { destruct prs0 as [| |b|n|s|l|q0]; simpl in Hsound; try discriminate Hsound; eauto;
      injection Hsound as Hsound; destruct (String.eqb "sound" "length"); discriminate. }
  assert (JS.truthy prs = true) as Tprs.
  { destruct prs as [| |b|n|s|l|qq]; simpl in Hprs0; try discriminate Hprs0; try reflexivity.
    destruct s as [|c s]; [|reflexivity]. discriminate Hprs0. }
  assert (JS.truthy hwi = true) as Thwi.
  { destruct hwi as [| |b|n|s|l|qq]; simpl in Hprs; try discriminate Hprs; try reflexivity;
      injection Hprs as <-; discriminate Tprs. }
  simpl in Hsound, Haudio. injection Hsound as Hsound. injection Haudio as Haudio.
  unfold mw_pronunciation, JS.and_then. rewrite Hhwi. simpl. rewrite Thwi, Hprs. simpl.
  rewrite Tprs, Hprs0. simpl. rewrite Hsound. simpl. rewrite Haudio. simpl.
  intros H. apply bind_Ok in H as (phonetic & _ & H). injection H as <-. eauto.
Qed.

(** C7.  The bucket of an audio token: ["bix"] for a token that starts with
    [bix], ["gg"] for one that starts with [gg], ["number"] for an underscore
    followed by a digit, the first character for any other token (nothing
    for the empty token).  It depends on the first three characters only,
    and the address is [{base}/{languageTag}/wav/{bucket}/{token}.wav].
    That address is what the adapter of Provider A builds: in every entry it
    adapts from a payload whose first record has a first pronunciation with
    a sound of audio token [token], the [url] of the one pronunciation is
    the address of [token], with the bucket of [token]. *)
Theorem audio_bucket_rule (token : string) :
  (JS.startsWith "bix" token = true -> subdir token = "bix") /\
  (JS.startsWith "gg" token = true -> subdir token = "gg") /\
  (JS.match_underscore_digit token = true -> subdir token = "number") /\
  (JS.startsWith "bix" token = false -> JS.startsWith "gg" token = false ->
   JS.match_underscore_digit token = false ->
   subdir token = String.substring 0 1 token) /\
  (forall token', String.substring 0 3 token' = String.substring 0 3 token ->
                  subdir token' = subdir token) /\
  audio_url token
  = mw_audio_base +:+ "/" +:+ "us" +:+ "/wav/" +:+ subdir token +:+ "/" +:+ token +:+ ".wav" /\
  (forall (gt : string -> Z -> bool) (mwData : value) (e : Entry)
          (entry hwi prs prs0 sound : value),
     normalizeMwData gt mwData = Ok (Some e) ->
     JS.idx mwData 0 = Ok entry ->
     JS.get entry "hwi" = Ok hwi -> JS.get hwi "prs" = Ok prs ->
     JS.idx prs 0 = Ok prs0 -> JS.get prs0 "sound" = Ok sound ->
     JS.get sound "audio" = Ok (VStr token) ->
     exists pron,
       pronunciation e
       = [VObj [("lang", VStr "us"); ("pron", pron);
                ("url",
                 VStr (mw_audio_base +:+ "/" +:+ "us" +:+ "/wav/" +:+ subdir token
                         +:+ "/" +:+ token +:+ ".wav"))]]).
Proof.
  split; [|split; [|split; [|split; [|split; [|split]]]]].
  - intros H. apply startsWith_spec in H as [rest ->]. apply subdir_bix.
  - intros H. apply startsWith_spec in H as [rest ->]. apply subdir_gg.
  - intros H. destruct token as [|c1 [|c2 rest]]; try discriminate H.
    simpl in H. apply andb_true_iff in H as [Hu Hd].
    apply Ascii.eqb_eq in Hu as ->. now apply subdir_number.
  - intros H1 H2 H3. rewrite subdir_other by assumption.
    now destruct token as [|c [|c' rest]].
  - intros token' H. now rewrite (subdir_prefix token'), H, <- subdir_prefix.
  - reflexivity.
  - intros gt mwData e entry hwi prs prs0 sound He Hentry Hhwi Hprs Hprs0 Hsound Haudio.
    unfold normalizeMwData in He.
    apply bind_Ok in He as (reject & _ & He). destruct reject; [discriminate He|].
    apply bind_Ok in He as (entry' & Hentry' & He).
    rewrite Hentry in Hentry'. injection Hentry' as <-.
    apply bind_Ok in He as (p & Hp & He).
    destruct (mw_pronunciation_sound entry hwi prs prs0 sound p token
                Hhwi Hprs Hprs0 Hsound Haudio Hp) as [pron ->].
    inv_ok. subst e. simpl. exists pron. reflexivity.
Qed.

Lemma audio_bucket_rule_witness :
  subdir "bix123" = "bix" /\ subdir "ggabc" = "gg" /\ subdir "_45abc" = "number" /\
  subdir "xyz" = "x" /\ subdir "bixby" = subdir "bix123" /\
  let sound := VObj [("audio", VStr "_45abc")] in
  let prs0 := VObj [("mw", VStr "for-tee-fahyv"); ("sound", sound)] in
  let hwi := VObj [("hw", VStr "forty-five"); ("prs", VArr [prs0])] in
  let entry := VObj [("meta", VObj [("id", VStr "forty-five:1")]); ("hwi", hwi);
                     ("fl", VStr "noun"); ("shortdef", VArr [VStr "a .45 caliber pistol"])] in
  exists e pron,
    normalizeMwData (fun _ _ => false) (VArr [entry]) = Ok (Some e) /\
    pronunciation e
    = [VObj [("lang", VStr "us"); ("pron", pron);
             ("url",
              VStr "https://media.merriam-webster.com/audio/prons/en/us/wav/number/_45abc.wav")]].
Proof.
  split; [|split; [|split; [|split; [|split]]]].
  - now apply (audio_bucket_rule "bix123").
  - now apply (audio_bucket_rule "ggabc").
  - now apply (audio_bucket_rule "_45abc").
  - now apply (audio_bucket_rule "xyz").
  - now apply (audio_bucket_rule "bix123").
  - intros sound prs0 hwi entry.
    assert (exists e, normalizeMwData (fun _ _ => false) (VArr [entry]) = Ok (Some e))
      as [e He] by (eexists; reflexivity).
    destruct (proj2 (proj2 (proj2 (proj2 (proj2 (proj2 (audio_bucket_rule "_45abc"))))))
                (fun _ _ => false) (VArr [entry]) e entry hwi (VArr [prs0]) prs0 sound
                He eq_refl eq_refl eq_refl eq_refl eq_refl eq_refl) as [pron Hpron].
    exists e, pron. split; [exact He | exact Hpron].
Defined.

(** The adapter files a pronunciation's sound under that address. *)
Lemma mw_pronunciation_audio (mw : string) (token : string) (others : list (string * value)) :
  mw_pronunciation
    (VObj (("hwi", VObj [("prs", VArr [VObj [("mw", VStr mw);
                                              ("sound", VObj [("audio", VStr token)])]])])
           :: others))
  = Ok (mk_pronunciation (VStr ("/" +:+ mw +:+ "/")) (VStr (audio_url token))).
Proof. reflexivity. Qed.

(** ** The definition text of Provider A *)

(** C8, as amended.  When Provider A adapts a list of records, the text of
    its one sense is the first short definition, verbatim, whenever that
    first short definition is truthy (a non-empty string); it is
    ["No definition found."] when the list of short definitions is empty,
    and also when its first element is the empty string. *)
Theorem mw_definition_text
    (gt : string -> Z -> bool) (mwData : value) (e : Entry) (defs : list value) :
  normalizeMwData gt mwData = Ok (Some e) ->
  mw_shortdef mwData = Some defs ->
  (forall first rest, defs = first :: rest -> JS.truthy first = true ->
                      map def_text (definition e) = [first]) /\
  (defs = [] -> map def_text (definition e) = [VStr "No definition found."]) /\
  (forall rest, defs = VStr "" :: rest ->
                map def_text (definition e) = [VStr "No definition found."]).
Proof.
  intros H Hdefs.
  apply normalizeMwData_Some in H
    as (entry & meta & id & ids & sd & sd0 & fl & ex & pr &
        Hentry & _ & _ & _ & Hsd & Hsd0 & _ & ->).
  simpl.
  assert (sd0 = nth 0 defs VUndef) as ->.
  { destruct mwData as [| | | | |[|[| | | | | |props] items]|]; try discriminate Hdefs.
    simpl in Hdefs, Hentry. injection Hentry as <-. simpl in Hsd. injection Hsd as <-.
    destruct (JS.lookup_prop "shortdef" props); try discriminate Hdefs.
    injection Hdefs as ->. simpl in Hsd0. now injection Hsd0. }
  split; [|split].
  - intros first rest -> Ht. simpl. unfold JS.or_else. now rewrite Ht.
  - now intros ->.
  - now intros rest ->.
Qed.

Lemma mw_definition_text_witness :
  map def_text
    (definition
       {| word := VStr "run"; translation := None; pos := [VStr "unknown"]; verbs := [];
          pronunciation := [mk_pronunciation (VStr "") (VStr "")];
          definition := [{| def_pos := VStr "unknown";
                            def_text := VStr "to go faster than a walk";
                            def_translation := None; def_example := Some [] |}] |})
  = [VStr "to go faster than a walk"].
Proof.
  refine (proj1 (mw_definition_text (fun _ _ => false)
                   (VArr [VObj [("meta", VObj [("id", VStr "run:1")]);
                                ("shortdef", VArr [VStr "to go faster than a walk";
                                                   VStr "to flee"])]])
                   _ [VStr "to go faster than a walk"; VStr "to flee"] _ _)
            (VStr "to go faster than a walk") [VStr "to flee"] _ _);
    reflexivity.
Defined.

(** C8 as stated fails: a list of short definitions that is not empty but
    starts with the empty string is answered with the fallback text, not
    with that first string. *)
Lemma mw_definition_text_counterexample :
  mw_shortdef
    (VArr [VObj [("meta", VObj [("id", VStr "run:1")]);
                 ("shortdef", VArr [VStr ""; VStr "to flee"])]])
  = Some [VStr ""; VStr "to flee"] /\
  exists e,
    (forall gt,
       normalizeMwData gt
         (VArr [VObj [("meta", VObj [("id", VStr "run:1")]);
                      ("shortdef", VArr [VStr ""; VStr "to flee"])]])
       = Ok (Some e)) /\
    map def_text (definition e) = [VStr "No definition found."].
Proof. split; [reflexivity|]. eexists. split; [intros gt|]; reflexivity. Qed.

(** ** The lexical cache key *)

Lemma string_length_append (s t : string) :
  String.length (s +:+ t) = String.length s + String.length t.
Proof.
  induction s as [|c s IH]; [reflexivity|].
  rewrite append_cons. simpl. now rewrite IH.
Qed.

Lemma append_inj_l (p x y : string) : p +:+ x = p +:+ y -> x = y.
Proof.
  induction p as [|c p IH]; [trivial|].
  rewrite !append_cons. intros [= H]. auto.
Qed.

Lemma append_inj_r (x y q : string) : x +:+ q = y +:+ q -> x = y.
Proof.
  revert y. induction x as [|c x IH]; intros [|d y] H.
  - reflexivity.
  - apply (f_equal String.length) in H.
    rewrite append_nil_l, string_length_append in H. simpl in H. lia.
  - apply (f_equal String.length) in H.
    rewrite append_nil_l, string_length_append in H. simpl in H. lia.
  - rewrite !append_cons in H. injection H as -> H. f_equal. now apply IH.
Qed.

(** A field without delimiter ends at the first delimiter. *)
Lemma append_delim_inj (x y r r' : string) :
  no_delim x = true -> no_delim y = true ->
  x +:+ "_" +:+ r = y +:+ "_" +:+ r' -> x = y /\ r = r'.
Proof.
  revert y. induction x as [|c x IH]; intros [|d y] Hx Hy H.
  - split; [reflexivity|]. now apply (append_inj_l "_").
  - rewrite append_nil_l, append_cons in H. injection H as <- _.
    simpl in Hy. discriminate Hy.
  - rewrite append_nil_l, append_cons in H. injection H as -> _.
    simpl in Hx. discriminate Hx.
  - rewrite !append_cons in H. injection H as -> H.
    simpl in Hx, Hy. apply andb_true_iff in Hx as [_ Hx]. apply andb_true_iff in Hy as [_ Hy].
    destruct (IH y Hx Hy H) as [-> ->]. now split.
Qed.

Lemma pretty_N_char_numeral (x : N) (s : string) :
  numeral s = true -> numeral (String (pretty_N_char x) s) = true.
Proof.
  intros H. simpl. rewrite H.
  unfold pretty_N_char. now repeat case_match.
Qed.

Lemma pretty_N_go_numeral (x : N) (s : string) :
  numeral s = true -> numeral (pretty_N_go x s) = true.
Proof.
  revert s. induction (N.lt_wf_0 x) as [x _ IH]; intros s Hs.
  destruct (decide (x = 0)%N) as [->|Hx].
  - now rewrite pretty_N_go_0.
  - rewrite pretty_N_go_step by lia.
    apply IH; [apply N.div_lt; lia | now apply pretty_N_char_numeral].
Qed.

Lemma pretty_Z_numeral (z : Z) : numeral (pretty z) = true.
Proof.
  assert (forall p : positive, numeral (pretty p) = true) as Hpos.
  { intros p. unfold pretty, pretty_positive, pretty, pretty_N.
    case_decide; [reflexivity | now apply pretty_N_go_numeral]. }
  destruct z as [|p|p]; [reflexivity | apply Hpos |].
  change (pretty (Z.neg p)) with ("-" +:+ pretty p).
  rewrite append_cons, append_nil_l. simpl. apply Hpos.
Qed.

Lemma numeral_no_delim (s : string) : numeral s = true -> no_delim s = true.
Proof.
  induction s as [|c s IH]; [trivial|]. simpl.
  intros H. apply andb_true_iff in H as [Hc Hs]. rewrite (IH Hs), andb_true_r.
  destruct (Ascii.eqb_spec c "_") as [->|]; [discriminate Hc | reflexivity].
Qed.

(** The text of the example count tells the count. *)
Lemma show_num_inj (x y : option Z) : show_num x = show_num y -> x = y.
Proof.
  destruct x as [n|], y as [m|]; simpl; intros H.
  - f_equal. now apply (inj pretty).
  - pose proof (pretty_Z_numeral n) as Hn. rewrite H in Hn. discriminate Hn.
  - pose proof (pretty_Z_numeral m) as Hm. rewrite <- H in Hm. discriminate Hm.
  - reflexivity.
Qed.

Lemma show_num_no_delim (x : option Z) : no_delim (show_num x) = true.
Proof.
  destruct x as [n|]; [|reflexivity]. apply numeral_no_delim, pretty_Z_numeral.
Qed.

(** The text of the scope tells the scope, except that an absent scope reads
    like the string ["undefined"]. *)
Lemma show_str_inj (x y : option string) :
  show_str x = show_str y ->
  x = y \/ (x = None /\ y = Some "undefined") \/ (x = Some "undefined" /\ y = None).
Proof.
  destruct x as [a|], y as [b|]; simpl; intros H; subst; auto.
Qed.

(** One field of the template changed, the key changed. *)
Lemma key_template_inj_each (a a' w w' sc sc' c c' l l' : string) :
  key_template a w sc c l = key_template a' w' sc' c' l' ->
  (w = w' -> sc = sc' -> c = c' -> l = l' -> a = a') /\
  (a = a' -> sc = sc' -> c = c' -> l = l' -> w = w') /\
  (a = a' -> w = w' -> c = c' -> l = l' -> sc = sc') /\
  (a = a' -> w = w' -> sc = sc' -> l = l' -> c = c') /\
  (a = a' -> w = w' -> sc = sc' -> c = c' -> l = l').
Proof.
  unfold key_template. intros H. apply append_inj_l in H.
  repeat split; intros; subst;
    repeat (apply append_inj_l in H); try assumption;
    now apply append_inj_r in H.
Qed.

(** Fields without delimiter can be read back from the key. *)
Lemma key_template_inj (a a' w w' sc sc' c c' l l' : string) :
  no_delim a = true -> no_delim a' = true ->
  no_delim w = true -> no_delim w' = true ->
  no_delim sc = true -> no_delim sc' = true ->
  no_delim c = true -> no_delim c' = true ->
  key_template a w sc c l = key_template a' w' sc' c' l' ->
  a = a' /\ w = w' /\ sc = sc' /\ c = c' /\ l = l'.
Proof.
  unfold key_template. intros Ha Ha' Hw Hw' Hsc Hsc' Hc Hc' H.
  apply append_inj_l in H.
  apply append_delim_inj in H as [-> H]; [|assumption..].
  apply append_delim_inj in H as [-> H]; [|assumption..].
  apply append_delim_inj in H as [-> H]; [|assumption..].
  apply append_delim_inj in H as [-> H]; [|assumption..].
  now subst.
Qed.

Lemma displaySettingsCacheKey_template (settings : Settings) (w : string) :
  displaySettingsCacheKey settings w
  = key_template (provider_of settings) w (show_str (definitionScope settings))
      (show_num (exampleCount settings)) (language_of settings).
Proof. reflexivity. Qed.

(** C3, as amended.  The key is a function of the five fields (provider,
    term, scope, example count, target language): equal fields give equal
    keys.  A change to exactly one field, the others held fixed, gives
    another key, except that an absent scope and the scope ["undefined"] give
    the same key.  Changes to several fields at once give another key as long
    as provider, term and scope hold no underscore; the term is not escaped,
    and beyond that two different requests can share a key. *)
Theorem displaySettingsCacheKey_fields (s s' : Settings) (w w' : string) :
  (provider_of s = provider_of s' -> w = w' ->
   definitionScope s = definitionScope s' -> exampleCount s = exampleCount s' ->
   language_of s = language_of s' ->
   displaySettingsCacheKey s w = displaySettingsCacheKey s' w') /\
  (displaySettingsCacheKey s w = displaySettingsCacheKey s' w' ->
   (w = w' -> definitionScope s = definitionScope s' ->
    exampleCount s = exampleCount s' -> language_of s = language_of s' ->
    provider_of s = provider_of s') /\
   (provider_of s = provider_of s' -> definitionScope s = definitionScope s' ->
    exampleCount s = exampleCount s' -> language_of s = language_of s' ->
    w = w') /\
   (provider_of s = provider_of s' -> w = w' ->
    exampleCount s = exampleCount s' -> language_of s = language_of s' ->
    definitionScope s = definitionScope s'
    \/ (definitionScope s = None /\ definitionScope s' = Some "undefined")
    \/ (definitionScope s = Some "undefined" /\ definitionScope s' = None)) /\
   (provider_of s = provider_of s' -> w = w' ->
    definitionScope s = definitionScope s' -> language_of s = language_of s' ->
    exampleCount s = exampleCount s') /\
   (provider_of s = provider_of s' -> w = w' ->
    definitionScope s = definitionScope s' -> exampleCount s = exampleCount s' ->
    language_of s = language_of s') /\
   (no_delim (provider_of s) = true -> no_delim (provider_of s') = true ->
    no_delim w = true -> no_delim w' = true ->
    no_delim (show_str (definitionScope s)) = true ->
    no_delim (show_str (definitionScope s')) = true ->
    provider_of s = provider_of s' /\ w = w' /\
    show_str (definitionScope s) = show_str (definitionScope s') /\
    exampleCount s = exampleCount s' /\ language_of s = language_of s')).
Proof.
  rewrite !displaySettingsCacheKey_template. split.
  - now intros -> -> -> -> ->.
  - intros H. pose proof (key_template_inj_each _ _ _ _ _ _ _ _ _ _ H)
      as (Ha & Hw & Hsc & Hc & Hl).
    repeat split.
    + intros. apply Ha; congruence.
    + intros. apply Hw; congruence.
    + intros. apply show_str_inj, Hsc; congruence.
    + intros. apply show_num_inj, Hc; congruence.
    + intros. apply Hl; congruence.
    + apply key_template_inj in H as (? & ? & ? & ? & ?);
        auto using show_num_no_delim.
    + apply key_template_inj in H as (? & ? & ? & ? & ?);
        auto using show_num_no_delim.
    + apply key_template_inj in H as (? & ? & ? & ? & ?);
        auto using show_num_no_delim.
    + apply key_template_inj in H as (? & ? & ? & ? & ?);
        auto using show_num_no_delim, show_num_inj.
    + apply key_template_inj in H as (? & ? & ? & ? & ?);
        auto using show_num_no_delim.
Qed.

Lemma displaySettingsCacheKey_fields_witness :
  displaySettingsCacheKey (mkSettings None None None (Some "relevant") (Some 1%Z) None) "run"
  = displaySettingsCacheKey
      (mkSettings (Some "cambridge") (Some "k") (Some "none") (Some "relevant") (Some 1%Z)
         (Some true)) "run" /\
  exampleCount (mkSettings None None None (Some "relevant") (Some 1%Z) None)
  = exampleCount (mkSettings (Some "cambridge") (Some "k") (Some "none") (Some "relevant")
                    (Some 1%Z) (Some true)).
Proof.
  pose proof (displaySettingsCacheKey_fields
                (mkSettings None None None (Some "relevant") (Some 1%Z) None)
                (mkSettings (Some "cambridge") (Some "k") (Some "none") (Some "relevant")
                   (Some 1%Z) (Some true)) "run" "run") as [Hsame Hdiff].
  split.
  - apply Hsame; reflexivity.
  - apply Hdiff; reflexivity.
Defined.

(** C3 as stated fails.  The term is not escaped: the terms ["run_all_5_en"]
    and ["run"] meet in one key once example count and target language
    differ as well.  And of two requests that differ in the scope alone, one
    with no scope stored and one with the scope ["undefined"], both get the
    same key. *)
Lemma displaySettingsCacheKey_collision_counterexample :
  (displaySettingsCacheKey (mkSettings None None (Some "fr") (Some "all") (Some 1%Z) None)
     "run_all_5_en"
   = displaySettingsCacheKey
       (mkSettings None None (Some "en_all_1_fr") (Some "all") (Some 5%Z) None) "run"
   /\ "run_all_5_en" <> "run") /\
  (displaySettingsCacheKey (mkSettings None None None None (Some 1%Z) None) "run"
   = displaySettingsCacheKey (mkSettings None None None (Some "undefined") (Some 1%Z) None) "run"
   /\ @None string <> Some "undefined").
Proof. repeat split; (reflexivity || discriminate). Qed.

(** C10.  The key takes scope and example count as stored, before the
    defaults of the projector: an absent scope or count puts ["undefined"] in
    its place.  A request with the preference absent and one with the
    preference stored at its default (["relevant"], 1) so get different
    keys, though the projector gives both the same entry. *)
Theorem displaySettingsCacheKey_undefaulted
    (src key lang scope : option string) (count : option Z) (tts : option bool)
    (w : string) (e : Entry) :
  displaySettingsCacheKey (mkSettings src key lang None count tts) w
  = "qdp_" +:+ str_or src "cambridge" +:+ "_" +:+ w +:+ "_" +:+ "undefined" +:+ "_"
      +:+ show_num count +:+ "_" +:+ str_or lang "none" /\
  displaySettingsCacheKey (mkSettings src key lang scope None tts) w
  = "qdp_" +:+ str_or src "cambridge" +:+ "_" +:+ w +:+ "_" +:+ show_str scope +:+ "_"
      +:+ "undefined" +:+ "_" +:+ str_or lang "none" /\
  displaySettingsCacheKey (mkSettings src key lang None count tts) w
  <> displaySettingsCacheKey (mkSettings src key lang (Some "relevant") count tts) w /\
  applyDisplayPreferences e (mkSettings src key lang None count tts)
  = applyDisplayPreferences e (mkSettings src key lang (Some "relevant") count tts) /\
  displaySettingsCacheKey (mkSettings src key lang scope None tts) w
  <> displaySettingsCacheKey (mkSettings src key lang scope (Some 1%Z) tts) w /\
  applyDisplayPreferences e (mkSettings src key lang scope None tts)
  = applyDisplayPreferences e (mkSettings src key lang scope (Some 1%Z) tts).
Proof.
  repeat split; try reflexivity.
  - rewrite !displaySettingsCacheKey_template. intros H.
    apply key_template_inj_each in H as (_ & _ & Hsc & _ & _).
    discriminate Hsc; reflexivity.
  - rewrite !displaySettingsCacheKey_template. intros H.
    apply key_template_inj_each in H as (_ & _ & _ & Hc & _).
    discriminate Hc; reflexivity.
Qed.

(** ** The projector over the object store *)

Module StoreFacts.
Import Store.

Lemma sbind_Some {A B : Type} (m : M A) (k : A -> M B) (st : store) (r : B * store) :
  sbind m k st = Some r -> exists a st', m st = Some (a, st') /\ k a st' = Some r.
Proof.
  unfold sbind. destruct (m st) as [[a st']|]; [eauto | discriminate].
Qed.

Lemma alloc_Some (c : cell) (st : store) (v : hvalue) (st' : store) :
  alloc c st = Some (v, st') ->
  exists l, v = HRef l /\ st !! l = None /\ st' = <[l := c]> st.
Proof.
  unfold alloc. intros [= <- <-]. exists (fresh (dom st)).
  split; [reflexivity|]. split; [|reflexivity].
  apply not_elem_of_dom, is_fresh.
Qed.

Lemma alloc_total (c : cell) (st : store) :
  exists l, alloc c st = Some (HRef l, <[l := c]> st) /\ st !! l = None.
Proof.
  exists (fresh (dom st)). split; [reflexivity|]. apply not_elem_of_dom, is_fresh.
Qed.

Lemma props_of_Some (v : hvalue) (st : store) (props : list (string * hvalue)) (st' : store) :
  props_of v st = Some (props, st') ->
  st' = st /\ exists l, v = HRef l /\ st !! l = Some (CObj props).
Proof.
  unfold props_of. destruct v as [| | | | |l]; try discriminate.
  destruct (st !! l) as [[ps|]|] eqn:E; try discriminate.
  intros [= <- <-]. eauto.
Qed.

Lemma items_of_Some (v : hvalue) (st : store) (items : list hvalue) (st' : store) :
  items_of v st = Some (items, st') ->
  st' = st /\ exists l, v = HRef l /\ st !! l = Some (CArr items).
Proof.
  unfold items_of. destruct v as [| | | | |l]; try discriminate.
  destruct (st !! l) as [[|its]|] eqn:E; try discriminate.
  intros [= <- <-]. eauto.
Qed.

(** *** Nothing that exists is written *)

Lemma trim_examples_extends (count : Z) (def : hvalue) (st : store) (v : hvalue) (st' : store) :
  trim_examples count def st = Some (v, st') -> st ⊆ st'.
Proof.
  unfold trim_examples. intros H.
  apply sbind_Some in H as (props & st0 & Hprops & H).
  apply props_of_Some in Hprops as [-> _].
  apply sbind_Some in H as (newDef & st1 & Hnew & H).
  apply alloc_Some in Hnew as (l & -> & Hl & ->).
  apply sbind_Some in H as ([] & st2 & Hbody & H).
  injection H as _ <-.
  destruct (truthy (lookup_prop "example" props)).
  - apply sbind_Some in Hbody as (items & st3 & Hitems & Hbody).
    apply items_of_Some in Hitems as [-> _].
    destruct (count <? Z.of_nat (length items))%Z.
    + apply sbind_Some in Hbody as (sliced & st4 & Hsl & Hbody).
      apply alloc_Some in Hsl as (x & -> & Hx & ->).
      unfold assign in Hbody.
      rewrite lookup_insert_ne in Hbody by (intros ->; rewrite lookup_insert_eq in Hx; discriminate).
      rewrite lookup_insert_eq in Hbody. injection Hbody as <-.
      apply map_subseteq_spec. intros i c Hi.
      assert (i <> l) by congruence.
      assert (i <> x).
      { intros ->. rewrite lookup_insert_ne in Hx by congruence. congruence. }
      now rewrite !lookup_insert_ne by congruence.
    + injection Hbody as <-. now apply insert_subseteq.
  - injection Hbody as <-. now apply insert_subseteq.
Qed.

Lemma map_M_extends {A B : Type} (f : A -> M B) (a : list A) :
  (forall x st y st', f x st = Some (y, st') -> st ⊆ st') ->
  forall st ys st', map_M f a st = Some (ys, st') -> st ⊆ st'.
Proof.
  intros Hf. induction a as [|x a IH]; intros st ys st' H; simpl in H.
  - injection H as _ <-. reflexivity.
  - apply sbind_Some in H as (y & st1 & Hy & H).
    apply sbind_Some in H as (ys' & st2 & Hys & H).
    injection H as _ <-.
    etransitivity; [eapply Hf, Hy | eapply IH, Hys].
Qed.

(** The call leaves every object and array of the store as it was, and
    what it returns is an object that did not exist before. *)
Lemma applyDisplayPreferences_extends
    (data : hvalue) (settings : Settings) (st : store) (r : hvalue) (st' : store) :
  applyDisplayPreferences data settings st = Some (r, st') ->
  st ⊆ st' /\ exists l, r = HRef l /\ st !! l = None.
Proof.
  unfold applyDisplayPreferences. intros H.
  apply sbind_Some in H as (props & st0 & Hprops & H).
  apply props_of_Some in Hprops as [-> _].
  apply sbind_Some in H as (items & st0 & Hitems & H).
  apply items_of_Some in Hitems as [-> _].
  apply sbind_Some in H as (d1 & st1 & Hd1 & H).
  apply alloc_Some in Hd1 as (l1 & -> & Hl1 & ->).
  apply sbind_Some in H as (d2 & st2 & Hd2 & H).
  assert (st ⊆ st2) as H12.
  { destruct (_ && _).
    - apply alloc_Some in Hd2 as (l2 & -> & Hl2 & ->).
      etransitivity; apply insert_subseteq; eassumption.
    - injection Hd2 as _ <-. now apply insert_subseteq. }
  apply sbind_Some in H as (items2 & st3 & Hitems2 & H).
  apply items_of_Some in Hitems2 as [-> _].
  apply sbind_Some in H as (finals & st3 & Hfinals & H).
  apply map_M_extends in Hfinals; [|intros; eapply trim_examples_extends; eassumption].
  apply sbind_Some in H as (fd & st4 & Hfd & H).
  apply alloc_Some in Hfd as (l4 & -> & Hl4 & ->).
  apply sbind_Some in H as (props2 & st5 & Hprops2 & H).
  apply props_of_Some in Hprops2 as [-> _].
  apply alloc_Some in H as (l5 & -> & Hl5 & ->).
  assert (st ⊆ <[l4:=CArr finals]> st3) as Hsub.
  { etransitivity; [exact H12|]. etransitivity; [exact Hfinals|]. now apply insert_subseteq. }
  split.
  - etransitivity; [exact Hsub|]. now apply insert_subseteq.
  - exists l5. split; [reflexivity|].
    destruct (st !! l5) as [c|] eqn:E; [|reflexivity].
    eapply lookup_weaken in E; [|exact Hsub]. congruence.
Qed.

(** *** Reading back is stable when the store grows *)

Lemma mapM_mono {A B : Type} (f g : A -> option B) (l : list A) (k : list B) :
  (forall x y, f x = Some y -> g x = Some y) ->
  mapM f l = Some k -> mapM g l = Some k.
Proof.
  intros Hfg. rewrite !mapM_Some. intros H.
  eapply Forall2_impl; [exact H | exact Hfg].
Qed.

Lemma mapM_take {A B : Type} (f : A -> option B) (l : list A) (k : list B) (m : nat) :
  mapM f l = Some k -> mapM f (take m l) = Some (take m k).
Proof. rewrite !mapM_Some. apply Forall2_take. Qed.

Lemma reify_mono (n : nat) (st st' : store) (v : hvalue) (x : value) :
  st ⊆ st' -> reify n st v = Some x -> reify n st' v = Some x.
Proof.
  intros Hsub. revert v x. induction n as [|n IH]; intros [| | | | |l] x H;
    try exact H; simpl in H; try discriminate H.
  simpl.
  destruct (st !! l) as [c|] eqn:E; [|discriminate H].
  rewrite (lookup_weaken _ _ _ _ E Hsub).
  destruct c as [props|items].
  - apply fmap_Some in H as (ps & H & ->).
    erewrite mapM_mono; [reflexivity | | exact H].
    intros kv y Hy. apply fmap_Some in Hy as (z & Hz & ->).
    now rewrite (IH _ _ Hz).
  - apply fmap_Some in H as (xs & H & ->).
    erewrite mapM_mono; [reflexivity | | exact H].
    intros; now apply IH.
Qed.

Lemma leaves_at_mono (n : nat) (st st' : store) (v : hvalue) (xs : list value) :
  st ⊆ st' -> leaves_at n st v = Some xs -> leaves_at n st' v = Some xs.
Proof.
  intros Hsub. unfold leaves_at. destruct v as [| | | | |l]; try discriminate.
  destruct (st !! l) as [[|items]|] eqn:E; try discriminate.
  rewrite (lookup_weaken _ _ _ _ E Hsub).
  apply mapM_mono. intros; eapply reify_mono; eassumption.
Qed.

Lemma optional_mono {A : Type} (read read' : hvalue -> option A)
    (o : option hvalue) (r : option A) :
  (forall v x, read v = Some x -> read' v = Some x) ->
  optional read o = Some r -> optional read' o = Some r.
Proof.
  intros Hrr. destruct o as [v|]; simpl; [|trivial].
  intros H. apply fmap_Some in H as (x & Hx & ->). now rewrite (Hrr _ _ Hx).
Qed.

Lemma sense_at_mono (n : nat) (st st' : store) (v : hvalue) (s : Sense) :
  st ⊆ st' -> sense_at n st v = Some s -> sense_at n st' v = Some s.
Proof.
  intros Hsub. unfold sense_at. destruct v as [| | | | |l]; try discriminate.
  destruct (st !! l) as [[props|]|] eqn:E; try discriminate.
  rewrite (lookup_weaken _ _ _ _ E Hsub).
  intros H.
  apply bind_Some in H as (p & Hp & H). apply bind_Some in H as (t & Ht & H).
  apply bind_Some in H as (tr & Htr & H). apply bind_Some in H as (ex & Hex & H).
  rewrite (reify_mono _ _ _ _ _ Hsub Hp), (reify_mono _ _ _ _ _ Hsub Ht). simpl.
  rewrite (optional_mono (reify n st) (reify n st') _ _
             (fun v x => reify_mono n st st' v x Hsub) Htr). simpl.
  rewrite (optional_mono (leaves_at n st) (leaves_at n st') _ _
             (fun v x => leaves_at_mono n st st' v x Hsub) Hex).
  exact H.
Qed.

Lemma senses_at_mono (n : nat) (st st' : store) (v : hvalue) (ss : list Sense) :
  st ⊆ st' -> senses_at n st v = Some ss -> senses_at n st' v = Some ss.
Proof.
  intros Hsub. unfold senses_at. destruct v as [| | | | |l]; try discriminate.
  destruct (st !! l) as [[|items]|] eqn:E; try discriminate.
  rewrite (lookup_weaken _ _ _ _ E Hsub).
  apply mapM_mono. intros; eapply sense_at_mono; eassumption.
Qed.

Lemma entry_at_mono (n : nat) (st st' : store) (v : hvalue) (e : Entry) :
  st ⊆ st' -> entry_at n st v = Some e -> entry_at n st' v = Some e.
Proof.
  intros Hsub. unfold entry_at. destruct v as [| | | | |l]; try discriminate.
  destruct (st !! l) as [[props|]|] eqn:E; try discriminate.
  rewrite (lookup_weaken _ _ _ _ E Hsub).
  intros H.
  apply bind_Some in H as (w & Hw & H). apply bind_Some in H as (tr & Htr & H).
  apply bind_Some in H as (ps & Hps & H). apply bind_Some in H as (vs & Hvs & H).
  apply bind_Some in H as (pr & Hpr & H). apply bind_Some in H as (ds & Hds & H).
  rewrite (reify_mono _ _ _ _ _ Hsub Hw). simpl.
  rewrite (optional_mono (reify n st) (reify n st') _ _
             (fun v x => reify_mono n st st' v x Hsub) Htr). simpl.
  rewrite (leaves_at_mono _ _ _ _ _ Hsub Hps). simpl.
  rewrite (leaves_at_mono _ _ _ _ _ Hsub Hvs). simpl.
  rewrite (leaves_at_mono _ _ _ _ _ Hsub Hpr). simpl.
  rewrite (senses_at_mono _ _ _ _ _ Hsub Hds). exact H.
Qed.

(** *** Defining a property *)

Lemma find_prop_set_prop_eq (k : string) (x : hvalue) (props : list (string * hvalue)) :
  find_prop k (set_prop k x props) = Some x.
Proof.
  induction props as [|[k' v] props IH]; simpl.
  - now rewrite String.eqb_refl.
  - destruct (String.eqb k k') eqn:E; simpl; rewrite E; [reflexivity | exact IH].
Qed.

Lemma find_prop_set_prop_ne (k k' : string) (x : hvalue) (props : list (string * hvalue)) :
  k <> k' -> find_prop k' (set_prop k x props) = find_prop k' props.
Proof.
  intros Hne. induction props as [|[k0 v] props IH]; simpl.
  - apply String.eqb_neq in Hne. now rewrite String.eqb_sym, Hne.
  - destruct (String.eqb k k0) eqn:E; simpl.
    + apply String.eqb_eq in E as <-.
      apply String.eqb_neq in Hne. now rewrite String.eqb_sym, Hne.
    + now rewrite IH.
Qed.

Lemma lookup_prop_set_prop_ne (k k' : string) (x : hvalue) (props : list (string * hvalue)) :
  k <> k' -> lookup_prop k' (set_prop k x props) = lookup_prop k' props.
Proof. intros H. unfold lookup_prop. now rewrite find_prop_set_prop_ne. Qed.

Lemma lookup_prop_set_prop_eq (k : string) (x : hvalue) (props : list (string * hvalue)) :
  lookup_prop k (set_prop k x props) = x.
Proof. unfold lookup_prop. now rewrite find_prop_set_prop_eq. Qed.

End StoreFacts.

(** *** The store model against the projector on entries *)

Lemma props_of_eval (l : Store.loc) (st : gmap Store.loc Store.cell) (props : list (string * Store.hvalue)) :
  st !! l = Some (Store.CObj props) -> Store.props_of (Store.HRef l) st = Some (props, st).
Proof. intros H. unfold Store.props_of. now rewrite H. Qed.

Lemma items_of_eval (l : Store.loc) (st : gmap Store.loc Store.cell) (items : list Store.hvalue) :
  st !! l = Some (Store.CArr items) -> Store.items_of (Store.HRef l) st = Some (items, st).
Proof. intros H. unfold Store.items_of. now rewrite H. Qed.

Lemma slice0_mapM {A B : Type} (f : A -> option B) (l : list A) (k : list B) (count : Z) :
  mapM f l = Some k -> mapM f (JS.slice0 l count) = Some (JS.slice0 k count).
Proof.
  intros H. unfold JS.slice0. rewrite <- (length_mapM _ _ _ H).
  now apply StoreFacts.mapM_take.
Qed.

Lemma sbind_eval {A B : Type} (m : Store.M A) (k : A -> Store.M B)
    (st st1 : gmap Store.loc Store.cell) (a : A) :
  m st = Some (a, st1) -> Store.sbind m k st = k a st1.
Proof. intros H. unfold Store.sbind. now rewrite H. Qed.

Lemma trim_examples_refines (n : nat) (count : Z) (st : gmap Store.loc Store.cell)
    (def : Store.hvalue) (s : Sense) :
  Store.sense_at n st def = Some s ->
  exists newDef st',
    Store.trim_examples count def st = Some (newDef, st') /\
    st ⊆ st' /\
    Store.sense_at n st' newDef = Some (trim_examples count s).
Proof.
  intros H.
  assert (exists newDef st', Store.trim_examples count def st = Some (newDef, st') /\
            Store.sense_at n st' newDef = Some (trim_examples count s)) as (newDef & st' & Hrun & Hs).
  2:{ exists newDef, st'. split; [exact Hrun|]. split; [|exact Hs].
      eapply StoreFacts.trim_examples_extends, Hrun. }
  unfold Store.sense_at in H. destruct def as [| | | | |d]; try discriminate H.
  destruct (st !! d) as [[props|]|] eqn:E; try discriminate H.
  apply bind_Some in H as (p & Hp & H). apply bind_Some in H as (t & Ht & H).
  apply bind_Some in H as (tr & Htr & H). apply bind_Some in H as (ex & Hex & H).
  injection H as <-.
  destruct (StoreFacts.alloc_total (Store.CObj props) st) as (l & Hal & Hl).
  assert (st ⊆ <[l := Store.CObj props]> st) as Hsub1 by now apply insert_subseteq.
  unfold Store.trim_examples.
  rewrite (sbind_eval _ _ _ _ _ (props_of_eval _ _ _ E)), (sbind_eval _ _ _ _ _ Hal).
  destruct (Store.find_prop "example" props) as [v|] eqn:Ef; simpl in Hex.
  - apply fmap_Some in Hex as (exs & Hexs & ->).
    unfold Store.leaves_at in Hexs. destruct v as [| | | | |x]; try discriminate Hexs.
    destruct (st !! x) as [[|items]|] eqn:Ex; try discriminate Hexs.
    assert (Store.lookup_prop "example" props = Store.HRef x) as ->
      by (unfold Store.lookup_prop; now rewrite Ef).
    change (Store.truthy (Store.HRef x)) with true. cbv iota.
    assert (x <> l) as Hxl by congruence.
    assert (Store.items_of (Store.HRef x) (<[l := Store.CObj props]> st)
            = Some (items, <[l := Store.CObj props]> st)) as Hitems
      by (apply items_of_eval; now rewrite lookup_insert_ne).
    pose proof (length_mapM _ _ _ Hexs) as Hlen.
    destruct (count <? Z.of_nat (length items))%Z eqn:Hlt.
    + destruct (StoreFacts.alloc_total (Store.CArr (JS.slice0 items count))
                  (<[l := Store.CObj props]> st)) as (x2 & Hal2 & Hx2).
      assert (l <> x2) as Hlx2 by (intros ->; rewrite lookup_insert_eq in Hx2; discriminate).
      eexists _, _. split.
      * erewrite sbind_eval; [reflexivity|].
        rewrite (sbind_eval _ _ _ _ _ Hitems), Hlt, (sbind_eval _ _ _ _ _ Hal2).
        unfold Store.assign. rewrite lookup_insert_ne by congruence.
        rewrite lookup_insert_eq. reflexivity.
      * assert (st ⊆ <[l:=Store.CObj (Store.set_prop "example" (Store.HRef x2) props)]>
                     (<[x2:=Store.CArr (JS.slice0 items count)]> (<[l:=Store.CObj props]> st)))
          as Hsub.
        { rewrite (insert_insert_ne _ l x2) by congruence. rewrite insert_insert_eq.
          etransitivity; [|apply insert_subseteq].
          - apply insert_subseteq. exact Hl.
          - rewrite lookup_insert_ne by congruence.
            rewrite lookup_insert_ne in Hx2 by congruence. exact Hx2. }
        assert (trim_examples count
                  {| def_pos := p; def_text := t; def_translation := tr;
                     def_example := Some exs |}
                = {| def_pos := p; def_text := t; def_translation := tr;
                     def_example := Some (JS.slice0 exs count) |}) as ->
          by (unfold trim_examples; simpl; now rewrite <- Hlen, Hlt).
        unfold Store.sense_at. rewrite lookup_insert_eq.
        rewrite (StoreFacts.lookup_prop_set_prop_ne "example" "pos") by discriminate.
        rewrite (StoreFacts.lookup_prop_set_prop_ne "example" "text") by discriminate.
        rewrite (StoreFacts.reify_mono _ _ _ _ _ Hsub Hp), (StoreFacts.reify_mono _ _ _ _ _ Hsub Ht).
        simpl.
        rewrite (StoreFacts.find_prop_set_prop_ne "example" "translation") by discriminate.
        rewrite (StoreFacts.optional_mono (Store.reify n st) _ _ _
                   (fun v x => StoreFacts.reify_mono n st _ v x Hsub) Htr). simpl.
        rewrite StoreFacts.find_prop_set_prop_eq. simpl.
        rewrite lookup_insert_ne by congruence. rewrite lookup_insert_eq.
        erewrite slice0_mapM; [reflexivity|].
        eapply StoreFacts.mapM_mono; [|exact Hexs].
        intros; eapply StoreFacts.reify_mono; eassumption.
    + eexists _, _. split.
      * erewrite sbind_eval; [reflexivity|].
        rewrite (sbind_eval _ _ _ _ _ Hitems), Hlt. reflexivity.
      * assert (trim_examples count
                  {| def_pos := p; def_text := t; def_translation := tr;
                     def_example := Some exs |}
                = {| def_pos := p; def_text := t; def_translation := tr;
                     def_example := Some exs |}) as ->
          by (unfold trim_examples; simpl; now rewrite <- Hlen, Hlt).
        unfold Store.sense_at. rewrite lookup_insert_eq.
        rewrite (StoreFacts.reify_mono _ _ _ _ _ Hsub1 Hp), (StoreFacts.reify_mono _ _ _ _ _ Hsub1 Ht).
        simpl.
        rewrite (StoreFacts.optional_mono (Store.reify n st) _ _ _
                   (fun v x => StoreFacts.reify_mono n st _ v x Hsub1) Htr). simpl.
        rewrite Ef. simpl. rewrite lookup_insert_ne by congruence. rewrite Ex.
        erewrite StoreFacts.mapM_mono; [reflexivity| |exact Hexs].
        intros; eapply StoreFacts.reify_mono; eassumption.
  - injection Hex as <-.
    assert (Store.lookup_prop "example" props = Store.HUndef) as ->
      by (unfold Store.lookup_prop; now rewrite Ef).
    eexists _, _. split; [reflexivity|].
    unfold Store.sense_at. rewrite lookup_insert_eq.
    rewrite (StoreFacts.reify_mono _ _ _ _ _ Hsub1 Hp), (StoreFacts.reify_mono _ _ _ _ _ Hsub1 Ht).
    simpl.
    rewrite (StoreFacts.optional_mono (Store.reify n st) _ _ _
               (fun v x => StoreFacts.reify_mono n st _ v x Hsub1) Htr). simpl.
    rewrite Ef. reflexivity.
Qed.

Lemma map_M_trim_refines (n : nat) (count : Z) (items : list Store.hvalue) :
  forall (st : gmap Store.loc Store.cell) (ss : list Sense),
    mapM (Store.sense_at n st) items = Some ss ->
    exists finals st',
      Store.map_M (Store.trim_examples count) items st = Some (finals, st') /\
      st ⊆ st' /\
      mapM (Store.sense_at n st') finals = Some (map (trim_examples count) ss).
Proof.
  induction items as [|x items IH]; intros st ss H.
  - apply mapM_Some in H. inversion H; subst. exists [], st. now split.
  - apply mapM_Some in H. inversion H as [|? s ? ss' Hx Hrest]; subst.
    destruct (trim_examples_refines n count st x s Hx) as (newDef & st1 & Hrun & Hsub1 & Hnew).
    apply mapM_Some in Hrest.
    assert (mapM (Store.sense_at n st1) items = Some ss') as Hrest1.
    { eapply StoreFacts.mapM_mono; [|exact Hrest].
      intros; eapply StoreFacts.sense_at_mono; eassumption. }
    destruct (IH st1 ss' Hrest1) as (finals & st2 & Hrun2 & Hsub2 & Hfinals).
    exists (newDef :: finals), st2. split; [|split].
    + simpl. rewrite (sbind_eval _ _ _ _ _ Hrun), (sbind_eval _ _ _ _ _ Hrun2). reflexivity.
    + now transitivity st1.
    + apply mapM_Some. simpl. constructor.
      * eapply StoreFacts.sense_at_mono; eassumption.
      * now apply mapM_Some.
Qed.

(** The projector over the store does what the projector on entries does:
    run on a store that holds the entry [e] under [data], it returns, and
    the store it leaves holds the projection of [e] under the result and
    still holds [e] under [data]. *)
Lemma store_refines (n : nat) (st : gmap Store.loc Store.cell) (data : Store.hvalue)
    (settings : Settings) (e : Entry) :
  Store.entry_at n st data = Some e ->
  exists r st',
    Store.applyDisplayPreferences data settings st = Some (r, st') /\
    st ⊆ st' /\
    (exists l, r = Store.HRef l /\ st !! l = None) /\
    Store.entry_at n st' r = Some (applyDisplayPreferences e settings) /\
    Store.entry_at n st' data = Some e.
Proof.
  intros He.
  assert (exists r st',
            Store.applyDisplayPreferences data settings st = Some (r, st') /\
            Store.entry_at n st' r = Some (applyDisplayPreferences e settings))
    as (r & st' & Hrun & Hr).
  2:{ destruct (StoreFacts.applyDisplayPreferences_extends _ _ _ _ _ Hrun) as [Hsub Hfresh].
      exists r, st'. repeat split; try assumption.
      eapply StoreFacts.entry_at_mono; eassumption. }
  unfold Store.entry_at in He. destruct data as [| | | | |l0]; try discriminate He.
  destruct (st !! l0) as [[props|]|] eqn:E0; try discriminate He.
  apply bind_Some in He as (w & Hw & He). apply bind_Some in He as (tr & Htr & He).
  apply bind_Some in He as (ps & Hps & He). apply bind_Some in He as (vs & Hvs & He).
  apply bind_Some in He as (pr & Hpr & He). apply bind_Some in He as (ds & Hds & He).
  injection He as <-.
  unfold Store.senses_at in Hds.
  destruct (Store.lookup_prop "definition" props) as [| | | | |a] eqn:Ea; try discriminate Hds.
  destruct (st !! a) as [[|items]|] eqn:Eitems; try discriminate Hds.
  pose proof (length_mapM _ _ _ Hds) as Hlen.
  destruct (StoreFacts.alloc_total (Store.CArr items) st) as (l1 & Hal1 & Hl1).
  set (st1 := <[l1 := Store.CArr items]> st) in *.
  assert (st ⊆ st1) as Hsub1 by now apply insert_subseteq.
  set (cond := String.eqb (str_or (definitionScope settings) "relevant") "relevant"
               && (1 <? length items)%nat).
  assert (exists dtu st2,
            (if cond then Store.alloc (Store.CArr (take 1 items))
             else Store.ret (Store.HRef l1)) st1 = Some (dtu, st2) /\
            st1 ⊆ st2 /\
            Store.items_of dtu st2
            = Some (if cond then take 1 items else items, st2))
    as (dtu & st2 & Hdtu & Hsub2 & Hkept).
  { destruct cond.
    - destruct (StoreFacts.alloc_total (Store.CArr (take 1 items)) st1) as (l2 & Hal2 & Hl2).
      eexists _, _. split; [exact Hal2|]. split; [now apply insert_subseteq|].
      apply items_of_eval, lookup_insert_eq.
    - eexists _, _. split; [reflexivity|]. split; [reflexivity|].
      apply items_of_eval, lookup_insert_eq. }
  assert (mapM (Store.sense_at n st2) (if cond then take 1 items else items)
          = Some (kept {| word := w; translation := tr; pos := ps; verbs := vs;
                          pronunciation := pr; definition := ds |} settings)) as Hkeptss.
  { unfold kept. simpl. rewrite <- Hlen. fold cond.
    eapply StoreFacts.mapM_mono with (f := Store.sense_at n st).
    - intros; eapply StoreFacts.sense_at_mono; [|eassumption]. now transitivity st1.
    - destruct cond; [now apply StoreFacts.mapM_take | exact Hds]. }
  destruct (map_M_trim_refines n (limit_of settings) _ _ _ Hkeptss)
    as (finals & st3 & Hmap & Hsub3 & Hfinals).
  destruct (StoreFacts.alloc_total (Store.CArr finals) st3) as (l4 & Hal4 & Hl4).
  set (st4 := <[l4 := Store.CArr finals]> st3) in *.
  assert (st3 ⊆ st4) as Hsub4 by now apply insert_subseteq.
  assert (st ⊆ st4) as Hsub04.
  { transitivity st1; [assumption|]. transitivity st2; [assumption|]. now transitivity st3. }
  set (props' := Store.set_prop "definition" (Store.HRef l4) props).
  destruct (StoreFacts.alloc_total (Store.CObj props') st4) as (l5 & Hal5 & Hl5).
  assert (st4 ⊆ <[l5 := Store.CObj props']> st4) as Hsub5 by now apply insert_subseteq.
  assert (st ⊆ <[l5 := Store.CObj props']> st4) as Hsub05 by now transitivity st4.
  eexists _, _. split.
  - unfold Store.applyDisplayPreferences.
    rewrite (sbind_eval _ _ _ _ _ (props_of_eval _ _ _ E0)).
    rewrite Ea.
    rewrite (sbind_eval _ _ _ _ _ (items_of_eval _ _ _ Eitems)).
    rewrite (sbind_eval _ _ _ _ _ Hal1).
    fold cond. rewrite (sbind_eval _ _ _ _ _ Hdtu).
    rewrite (sbind_eval _ _ _ _ _ Hkept).
    fold (limit_of settings).
    rewrite (sbind_eval _ _ _ _ _ Hmap).
    rewrite (sbind_eval _ _ _ _ _ Hal4).
    rewrite (sbind_eval _ _ _ _ _ (props_of_eval l0 st4 props (lookup_weaken _ _ _ _ E0 Hsub04))).
    exact Hal5.
  - subst props'. unfold Store.entry_at. rewrite lookup_insert_eq.
    rewrite (StoreFacts.lookup_prop_set_prop_ne "definition" "word") by discriminate.
    rewrite (StoreFacts.reify_mono _ _ _ _ _ Hsub05 Hw). simpl.
    rewrite (StoreFacts.find_prop_set_prop_ne "definition" "translation") by discriminate.
    rewrite (StoreFacts.optional_mono (Store.reify n st) _ _ _
               (fun v x => StoreFacts.reify_mono n st _ v x Hsub05) Htr). simpl.
    rewrite (StoreFacts.lookup_prop_set_prop_ne "definition" "pos") by discriminate.
    rewrite (StoreFacts.leaves_at_mono _ _ _ _ _ Hsub05 Hps). simpl.
    rewrite (StoreFacts.lookup_prop_set_prop_ne "definition" "verbs") by discriminate.
    rewrite (StoreFacts.leaves_at_mono _ _ _ _ _ Hsub05 Hvs). simpl.
    rewrite (StoreFacts.lookup_prop_set_prop_ne "definition" "pronunciation") by discriminate.
    rewrite (StoreFacts.leaves_at_mono _ _ _ _ _ Hsub05 Hpr). simpl.
    rewrite StoreFacts.lookup_prop_set_prop_eq.
    assert (l4 <> l5) as Hne by (intros ->; unfold st4 in Hl5; rewrite lookup_insert_eq in Hl5; discriminate).
    unfold Store.senses_at. rewrite lookup_insert_ne by congruence.
    unfold st4 at 1. rewrite lookup_insert_eq.
    erewrite StoreFacts.mapM_mono; [reflexivity| |exact Hfinals].
    intros; eapply StoreFacts.sense_at_mono; [|eassumption]. now transitivity st4.
Qed.

(** C9.  On a store that holds an entry [e] under [data], the projector
    returns a reference to an object that did not exist before the call;
    every object and array that existed before the call is the same after
    it; so [data] still holds [e], definition list and examples included,
    and the new object holds the projection of [e]. *)
Theorem applyDisplayPreferences_leaves_input
    (n : nat) (st : gmap Store.loc Store.cell) (data : Store.hvalue)
    (settings : Settings) (e : Entry) :
  Store.entry_at n st data = Some e ->
  exists r st',
    Store.applyDisplayPreferences data settings st = Some (r, st') /\
    (forall l c, st !! l = Some c -> st' !! l = Some c) /\
    (exists l, r = Store.HRef l /\ st !! l = None) /\
    Store.entry_at n st' data = Some e /\
    Store.entry_at n st' r = Some (applyDisplayPreferences e settings).
Proof.
  intros He.
  destruct (store_refines n st data settings e He)
    as (r & st' & Hrun & Hsub & Hfresh & Hr & Hdata).
  exists r, st'. repeat split; try assumption.
  intros l c Hl. eapply lookup_weaken; eassumption.
Qed.

Lemma applyDisplayPreferences_leaves_input_witness :
  let st : gmap Store.loc Store.cell :=
    list_to_map
      [(1%positive, Store.CObj [("word", Store.HStr "run"); ("pos", Store.HRef 2%positive);
                                ("verbs", Store.HRef 3%positive); ("pronunciation", Store.HRef 3%positive);
                                ("definition", Store.HRef 4%positive)]);
       (2%positive, Store.CArr [Store.HStr "verb"; Store.HStr "noun"]);
       (3%positive, Store.CArr []);
       (4%positive, Store.CArr [Store.HRef 5%positive; Store.HRef 6%positive]);
       (5%positive, Store.CObj [("pos", Store.HStr "verb"); ("text", Store.HStr "move fast");
                                ("example", Store.HRef 7%positive)]);
       (6%positive, Store.CObj [("pos", Store.HStr "noun");
                                ("text", Store.HStr "an act of running")]);
       (7%positive, Store.CArr [Store.HStr "a"; Store.HStr "b"; Store.HRef 8%positive]);
       (8%positive, Store.CObj [("text", Store.HStr "c")])] in
  let e :=
    {| word := VStr "run"; translation := None; pos := [VStr "verb"; VStr "noun"];
       verbs := []; pronunciation := [];
       definition :=
         [{| def_pos := VStr "verb"; def_text := VStr "move fast"; def_translation := None;
             def_example := Some [VStr "a"; VStr "b"; VObj [("text", VStr "c")]] |};
          {| def_pos := VStr "noun"; def_text := VStr "an act of running";
             def_translation := None; def_example := None |}] |} in
  let settings := mkSettings None None None (Some "all") (Some 2%Z) None in
  exists r st',
    Store.applyDisplayPreferences (Store.HRef 1%positive) settings st = Some (r, st') /\
    (forall l c, st !! l = Some c -> st' !! l = Some c) /\
    (exists l, r = Store.HRef l /\ st !! l = None) /\
    Store.entry_at 3 st' (Store.HRef 1%positive) = Some e /\
    Store.entry_at 3 st' r = Some (applyDisplayPreferences e settings).
Proof.
  intros st e settings.
  apply (applyDisplayPreferences_leaves_input 3 st (Store.HRef 1%positive) settings e).
  vm_compute. reflexivity.
Defined.

(** * The rest of the service worker *)

(** ** Terms and sentences *)

Lemma lower_char_idempotent (c : ascii) : Text.lower_char (Text.lower_char c) = Text.lower_char c.
Proof. destruct c as [[] [] [] [] [] [] [] []]; reflexivity. Qed.

Lemma toLowerCase_idempotent (s : string) :
  Text.toLowerCase (Text.toLowerCase s) = Text.toLowerCase s.
Proof.
  induction s as [|c s IH]; [reflexivity|].
  simpl. now rewrite lower_char_idempotent, IH.
Qed.

Lemma encode_char_decode (c : ascii) (rest : string) :
  Text.decode (Text.encode_char c +:+ rest) = String c <$> Text.decode rest.
Proof. destruct c as [[] [] [] [] [] [] [] []]; reflexivity. Qed.

Lemma encodeURIComponent_decode (s : string) :
  Text.decode (Text.encodeURIComponent s) = Some s.
Proof.
  induction s as [|c s IH]; [reflexivity|].
  simpl. now rewrite encode_char_decode, IH.
Qed.

Lemma append_assoc (a b c : string) : (a +:+ b) +:+ c = a +:+ (b +:+ c).
Proof. induction a as [|x a IH]; [reflexivity|]. rewrite !append_cons. now rewrite IH. Qed.

Lemma escape_marks_append (a b : string) :
  Text.escape_marks (a +:+ b) = Text.escape_marks a +:+ Text.escape_marks b.
Proof.
  induction a as [|c a IH]; [reflexivity|].
  rewrite append_cons. simpl. now rewrite IH, append_assoc.
Qed.

Lemma escaped_char_decode (c : ascii) (rest : string) :
  Text.decode (Text.escape_marks (Text.encode_char c) +:+ rest) = String c <$> Text.decode rest.
Proof. destruct c as [[] [] [] [] [] [] [] []]; reflexivity. Qed.

Lemma encodedSentence_decode (s : string) : Text.decode (Text.encodedSentence s) = Some s.
Proof.
  unfold Text.encodedSentence. induction s as [|c s IH]; [reflexivity|].
  simpl. now rewrite escape_marks_append, escaped_char_decode, IH.
Qed.

Lemma all_chars_append (p : ascii -> bool) (a b : string) :
  Text.all_chars p (a +:+ b) = Text.all_chars p a && Text.all_chars p b.
Proof.
  induction a as [|c a IH]; [reflexivity|].
  rewrite append_cons. simpl. now rewrite IH, andb_assoc.
Qed.

Lemma escaped_char_key_safe (c : ascii) :
  Text.all_chars Text.is_key_safe (Text.escape_marks (Text.encode_char c)) = true.
Proof. destruct c as [[] [] [] [] [] [] [] []]; reflexivity. Qed.

Lemma encode_char_unreserved (c : ascii) :
  Text.all_chars (fun x => Text.is_unreserved x || Ascii.eqb x "%") (Text.encode_char c) = true.
Proof. destruct c as [[] [] [] [] [] [] [] []]; reflexivity. Qed.

(** X2.  What is left of a text in an address and in a cache key:
    [encodeURIComponent] writes letters, digits, the marks [- _ . ! ~ * ' ( )]
    and percent signs only; the sentence of a cache key, with the marks
    [! ' ( ) *] escaped as well, is made of letters, digits and
    [- _ . ~ %]. *)
Theorem encodings_alphabet (s : string) :
  Text.all_chars (fun x => Text.is_unreserved x || Ascii.eqb x "%") (Text.encodeURIComponent s) = true /\
  Text.all_chars Text.is_key_safe (Text.encodedSentence s) = true.
Proof.
  unfold Text.encodedSentence. split.
  - induction s as [|c s IH]; [reflexivity|].
    simpl. now rewrite all_chars_append, encode_char_unreserved, IH.
  - induction s as [|c s IH]; [reflexivity|].
    simpl. now rewrite escape_marks_append, all_chars_append, escaped_char_key_safe, IH.
Qed.


Lemma nonempty_snoc (cur : string) (c : ascii) : Text.nonempty (cur +:+ String c "") = true.
Proof. unfold Text.nonempty. rewrite string_length_append. simpl. apply Nat.ltb_lt. lia. Qed.

(** Whitespace alone closes the piece being read and opens no other. *)
Lemma split_go_blank (s : string) :
  Text.has_ink s = false ->
  forall cur skipping,
    List.filter Text.nonempty (Text.split_go cur skipping s) = List.filter Text.nonempty [cur].
Proof.
  unfold Text.has_ink.
  induction s as [|c s IH]; intros H cur skipping; [reflexivity|].
  simpl in H. apply orb_false_iff in H as [Hc Hs]. apply negb_false_iff in Hc.
  simpl. rewrite Hc. destruct skipping.
  - now apply IH.
  - simpl. rewrite (IH Hs "" true). simpl. now destruct (Text.nonempty cur).
Qed.

Lemma split_go_count_ink (s : string) :
  forall cur skipping,
    Text.has_ink s = true ->
    1 <= length (List.filter Text.nonempty (Text.split_go cur skipping s)).
Proof.
  unfold Text.has_ink.
  induction s as [|c s IH]; intros cur skipping H; [discriminate H|].
  simpl in H. simpl. destruct (Text.is_whitespace c) eqn:Hc; simpl in H.
  - destruct skipping; [now apply IH|].
    simpl. destruct (Text.nonempty cur); simpl; [lia | now apply IH].
  - clear H. destruct (Text.has_ink s) eqn:Hs.
    + now apply IH.
    + rewrite (split_go_blank s Hs). simpl. rewrite nonempty_snoc. simpl. lia.
Qed.

Lemma split_go_count_cur (s : string) :
  forall cur skipping,
    Text.nonempty cur = true ->
    1 <= length (List.filter Text.nonempty (Text.split_go cur skipping s)).
Proof.
  induction s as [|c s IH]; intros cur skipping H; simpl.
  - rewrite H. simpl. lia.
  - destruct (Text.is_whitespace c).
    + destruct skipping; [now apply IH|]. simpl. rewrite H. simpl. lia.
    + apply IH, nonempty_snoc.
Qed.

(** A piece under way, then whitespace, then ink: two words at least. *)
Lemma split_go_two_after (a : string) :
  forall cur (sp : ascii) (b : string),
    Text.nonempty cur = true -> Text.is_whitespace sp = true -> Text.has_ink b = true ->
    2 <= length (List.filter Text.nonempty (Text.split_go cur false (a +:+ String sp b))).
Proof.
  induction a as [|c a IH]; intros cur sp b Hcur Hsp Hb.
  - rewrite append_nil_l. simpl. rewrite Hsp. simpl. rewrite Hcur. simpl.
    pose proof (split_go_count_ink b "" true Hb). lia.
  - rewrite append_cons. simpl. destruct (Text.is_whitespace c) eqn:Hc.
    + simpl. rewrite Hcur. simpl.
      assert (Text.has_ink (a +:+ String sp b) = true) as Hink.
      { clear -Hb. unfold Text.has_ink in *. induction a as [|x a IHa].
        - rewrite append_nil_l. simpl. rewrite Hb. apply orb_true_r.
        - rewrite append_cons. simpl. rewrite IHa. apply orb_true_r. }
      pose proof (split_go_count_ink _ "" true Hink). lia.
    + apply IH; [apply nonempty_snoc | assumption | assumption].
Qed.

Lemma split_go_two (a : string) :
  forall cur skipping (sp : ascii) (b : string),
    Text.has_ink a = true -> Text.is_whitespace sp = true -> Text.has_ink b = true ->
    2 <= length (List.filter Text.nonempty (Text.split_go cur skipping (a +:+ String sp b))).
Proof.
  induction a as [|c a IH]; intros cur skipping sp b Ha Hsp Hb; [discriminate Ha|].
  rewrite append_cons. unfold Text.has_ink in Ha. simpl in Ha. simpl.
  destruct (Text.is_whitespace c) eqn:Hc; simpl in Ha.
  - destruct skipping; [now apply IH|].
    simpl. destruct (Text.nonempty cur); simpl.
    + pose proof (IH "" true sp b Ha Hsp Hb). lia.
    + now apply IH.
  - apply split_go_two_after; [apply nonempty_snoc | assumption | assumption].
Qed.

(** Two words: whitespace with ink on both sides, or after the piece under
    way. *)
Lemma split_go_two_inv (s : string) :
  forall cur skipping,
    2 <= length (List.filter Text.nonempty (Text.split_go cur skipping s)) ->
    exists a sp b,
      s = a +:+ String sp b /\ Text.is_whitespace sp = true /\ Text.has_ink b = true /\
      (Text.nonempty cur = true \/ Text.has_ink a = true).
Proof.
  induction s as [|c s IH]; intros cur skipping H.
  - simpl in H. destruct (Text.nonempty cur); simpl in H; lia.
  - simpl in H. destruct (Text.is_whitespace c) eqn:Hc.
    + destruct skipping.
      * destruct (IH _ _ H) as (a & sp & b & -> & Hsp & Hb & Hor).
        exists (String c a), sp, b. rewrite append_cons. repeat split; try assumption.
        destruct Hor as [?|Ha]; [now left|right].
        unfold Text.has_ink in *. simpl. rewrite Ha. apply orb_true_r.
      * simpl in H. destruct (Text.nonempty cur) eqn:Hcur; simpl in H.
        -- exists "", c, s. rewrite append_nil_l. repeat split; try assumption; [|now left].
           destruct (Text.has_ink s) eqn:Hs; [reflexivity|].
           rewrite (split_go_blank s Hs) in H. simpl in H. lia.
        -- destruct (IH _ _ H) as (a & sp & b & -> & Hsp & Hb & [Hor|Ha]); [discriminate Hor|].
           exists (String c a), sp, b. rewrite append_cons. repeat split; try assumption.
           right. unfold Text.has_ink in *. simpl. rewrite Ha. apply orb_true_r.
    + destruct (IH _ _ H) as (a & sp & b & -> & Hsp & Hb & _).
      exists (String c a), sp, b. rewrite append_cons. repeat split; try assumption.
      destruct (Text.nonempty cur); [now left|right].
      unfold Text.has_ink. simpl. now rewrite Hc.
Qed.

(** X1.  A term is a phrase exactly when whitespace in it has a character that is
    no whitespace on either side. *)
Theorem isPhrase_iff (word : string) :
  Text.isPhrase word = true <->
  exists a sp b,
    word = a +:+ String sp b /\ Text.is_whitespace sp = true /\
    Text.has_ink a = true /\ Text.has_ink b = true.
Proof.
  unfold Text.isPhrase, Text.words, Text.split_whitespace. rewrite Nat.ltb_lt. split.
  - intros H. destruct (split_go_two_inv word "" false) as (a & sp & b & Hw & Hsp & Hb & Hor);
      [lia|].
    destruct Hor as [Hcur|Ha]; [discriminate Hcur|]. now exists a, sp, b.
  - intros (a & sp & b & -> & Hsp & Ha & Hb).
    pose proof (split_go_two a "" false sp b Ha Hsp Hb). lia.
Qed.

(** ** The key and the address of a sentence *)

Lemma decode_injective (f : string -> string) :
  (forall s, Text.decode (f s) = Some s) -> forall a b, f a = f b -> a = b.
Proof.
  intros H a b E. pose proof (H a) as Ha. rewrite E, H in Ha. now injection Ha.
Qed.

(** A field without delimiter starts after the last delimiter. *)
Lemma append_delim_inj_last (x y r r' : string) :
  no_delim r = true -> no_delim r' = true ->
  x +:+ "_" +:+ r = y +:+ "_" +:+ r' -> x = y /\ r = r'.
Proof.
  intros Hr Hr'. revert y. induction x as [|c x IH]; intros [|d y] H.
  - split; [reflexivity|]. now apply (append_inj_l "_").
  - rewrite append_nil_l, !append_cons in H. injection H as <- H.
    rewrite !append_nil_l in H. rewrite H in Hr. clear -Hr. exfalso.
    induction y as [|e y IH]; [discriminate Hr|].
    rewrite append_cons in Hr. simpl in Hr. apply andb_true_iff in Hr as [_ Hr]. auto.
  - rewrite append_nil_l, !append_cons in H. injection H as -> H.
    rewrite !append_nil_l in H. rewrite <- H in Hr'. clear -Hr'. exfalso.
    induction x as [|e x IH]; [discriminate Hr'|].
    rewrite append_cons in Hr'. simpl in Hr'. apply andb_true_iff in Hr' as [_ Hr']. auto.
  - rewrite !append_cons in H. injection H as -> H.
    destruct (IH y H) as [-> ->]. now split.
Qed.

(** X3.  Two sentences translated into one language have different cache keys,
    and different addresses. *)
Theorem sentence_keys_apart (a b targetLanguage : string) :
  (Handler.sentenceCacheKey a targetLanguage = Handler.sentenceCacheKey b targetLanguage
   -> a = b) /\
  (Handler.translateUrl a targetLanguage = Handler.translateUrl b targetLanguage -> a = b).
Proof.
  split; intros H.
  - unfold Handler.sentenceCacheKey in H.
    apply append_inj_l, append_inj_r in H.
    revert H. apply decode_injective, encodedSentence_decode.
  - unfold Handler.translateUrl in H.
    apply append_inj_l, append_inj_r in H.
    revert H. apply decode_injective, encodeURIComponent_decode.
Qed.

(** X4.  With languages that hold no underscore, the cache key tells sentence
    and language. *)
Theorem sentenceCacheKey_injective (a b l l' : string) :
  no_delim l = true -> no_delim l' = true ->
  Handler.sentenceCacheKey a l = Handler.sentenceCacheKey b l' -> a = b /\ l = l'.
Proof.
  intros Hl Hl' H. unfold Handler.sentenceCacheKey in H.
  apply append_inj_l in H.
  apply append_delim_inj_last in H as [H ->]; [|assumption..].
  split; [|reflexivity].
  revert H. apply decode_injective, encodedSentence_decode.
Qed.

Lemma encodeURIComponent_append (a b : string) :
  Text.encodeURIComponent (a +:+ b) = Text.encodeURIComponent a +:+ Text.encodeURIComponent b.
Proof.
  induction a as [|c a IH]; [reflexivity|].
  rewrite append_cons. simpl. now rewrite IH, append_assoc.
Qed.

Lemma encodedSentence_append (a b : string) :
  Text.encodedSentence (a +:+ b) = Text.encodedSentence a +:+ Text.encodedSentence b.
Proof.
  unfold Text.encodedSentence. now rewrite encodeURIComponent_append, escape_marks_append.
Qed.

Lemma encodedSentence_plain_char (c : ascii) :
  Text.is_alnum c || Text.one_of "-_.~" c = true ->
  Text.escape_marks (Text.encode_char c) = String c "".
Proof. destruct c as [[] [] [] [] [] [] [] []]; intros H; try discriminate H; reflexivity. Qed.

Lemma encodedSentence_plain (s : string) :
  Text.all_chars (fun c => Text.is_alnum c || Text.one_of "-_.~" c) s = true ->
  Text.encodedSentence s = s.
Proof.
  unfold Text.encodedSentence. induction s as [|c s IH]; [reflexivity|].
  simpl. intros H. apply andb_true_iff in H as [Hc Hs].
  rewrite escape_marks_append, (encodedSentence_plain_char c Hc), (IH Hs). reflexivity.
Qed.

(** X5.  An underscore in the language moves the border between sentence and
    language: the sentence [s_t] in the language [l] and the sentence [s] in
    the language [t_l] share one cache key. *)
Theorem sentenceCacheKey_collision (s t l : string) :
  Text.all_chars (fun c => Text.is_alnum c || Text.one_of "-_.~" c) t = true ->
  Handler.sentenceCacheKey (s +:+ "_" +:+ t) l = Handler.sentenceCacheKey s (t +:+ "_" +:+ l).
Proof.
  intros Ht. unfold Handler.sentenceCacheKey.
  rewrite !encodedSentence_append, (encodedSentence_plain t Ht).
  change (Text.encodedSentence "_") with "_".
  now rewrite !append_assoc.
Qed.

(** ** What the adapters build *)

Lemma split_head_no_sep (sep : ascii) (s : string) :
  Text.all_chars (fun c => negb (Ascii.eqb c sep)) (JS.split_head sep s) = true.
Proof.
  induction s as [|c s IH]; [reflexivity|].
  simpl. destruct (Ascii.eqb c sep) eqn:E; [reflexivity|]. simpl. now rewrite E.
Qed.

Section AdapterShapes.

Variable gt : string -> Z -> bool.

Lemma mw_vis_examples_length (def : value) (l : list value) :
  mw_vis_examples def = Ok l -> length l <= 1.
Proof.
  unfold mw_vis_examples. intros H. inv_ok; subst; simpl; lia.
Qed.

Lemma mw_examples_length (entry : value) (l : list value) :
  mw_examples gt entry = Ok l -> length l <= 1.
Proof.
  unfold mw_examples. intros H. inv_ok; subst; simpl; try lia.
  all: unfold try_catch.
  all: destruct (mw_vis_examples _) as [v|] eqn:Hv; simpl; [|lia].
  all: now apply mw_vis_examples_length in Hv.
Qed.

(** X8.  Whatever Merriam-Webster sends, an entry adapted from it has a headword
    without colon, no translation, no verbs, one pronunciation, and one
    sense with one example at most. *)
Theorem normalizeMwData_shape (mwData : value) (e : Entry) :
  normalizeMwData gt mwData = Ok (Some e) ->
  exists w p d ex,
    word e = VStr w /\ Text.all_chars (fun c => negb (Ascii.eqb c ":")) w = true /\
    translation e = None /\ verbs e = [] /\ pronunciation e = [p] /\
    pos e = [def_pos d] /\ definition e = [d] /\
    def_translation d = None /\ def_example d = Some ex /\ length ex <= 1.
Proof.
  unfold normalizeMwData. intros H. inv_ok. subst e. simpl.
  eexists _, _, _, _. repeat split; try reflexivity.
  - apply split_head_no_sep.
  - eapply mw_examples_length. eassumption.
Qed.

(** X9.  Where there are no supplementary examples ([suppl] is falsy, or its
    [examples] are, or their [length] is not above 0), and [def] is falsy or
    its first element can be asked for its [sseq], reading the example of
    the first sense does not fail the adapter: the examples are read, one at
    most, and whatever goes wrong inside the [try] leaves them empty. *)
Theorem mw_examples_vis_total (entry suppl examples def : value) :
  JS.get entry "suppl" = Ok suppl ->
  JS.and_then suppl (JS.get suppl "examples") = Ok examples ->
  JS.truthy examples = false
  \/ (exists len, JS.get examples "length" = Ok len /\ js_gt gt len 0 = Ok false) ->
  JS.get entry "def" = Ok def ->
  JS.truthy def = false
  \/ (exists def0 sseq, JS.idx def 0 = Ok def0 /\ JS.get def0 "sseq" = Ok sseq) ->
  exists l, mw_examples gt entry = Ok l /\ length l <= 1 /\
            (mw_vis_examples def = Throw -> l = []).
Proof.
  intros Hs He Hnone Hd Hdef. unfold mw_examples.
  rewrite Hs. cbn [bind]. rewrite He. cbn [bind].
  assert ((if JS.truthy examples
           then let* len := JS.get examples "length" in js_gt gt len 0
           else Ok false) = Ok false) as ->.
  { destruct Hnone as [-> | (len & Hlen & Hgt)]; [reflexivity|].
    rewrite Hlen. cbn [bind]. rewrite Hgt. now destruct (JS.truthy examples). }
  cbn [bind]. rewrite Hd. cbn [bind].
  destruct Hdef as [-> | (def0 & sseq & Hd0 & Hq)].
  - cbn [bind]. exists []. repeat split; simpl; lia.
  - rewrite Hd0. cbn [bind]. rewrite Hq. cbn [bind].
    destruct (JS.truthy def); cbn [bind]; [|exists []; repeat split; simpl; lia].
    destruct (JS.truthy sseq); [|exists []; repeat split; simpl; lia].
    eexists. split; [reflexivity|]. unfold try_catch.
    destruct (mw_vis_examples def) as [l|] eqn:Hv.
    + split; [|discriminate]. now apply mw_vis_examples_length in Hv.
    + split; [simpl; lia | reflexivity].
Qed.

End AdapterShapes.

Lemma gemini_form_fields (form : value) (d : Sense) :
  gemini_form form = Ok d ->
  is_Some (def_translation d) /\ is_Some (def_example d).
Proof. unfold gemini_form. intros H. inv_ok; subst d; simpl; split; eauto. Qed.

Lemma map_result_Forall {A B : Type} (f : A -> result B) (P : B -> Prop) (a : list A) (b : list B) :
  (forall x y, f x = Ok y -> P y) -> map_result f a = Ok b -> Forall P b.
Proof.
  intros Hf. revert b. induction a as [|x a IH]; intros b H; simpl in H.
  - inv_ok. subst. constructor.
  - inv_ok. subst b. constructor; eauto.
Qed.

(** X10.  An entry adapted from a Gemini answer has one sense for each form, in
    their order, and at least one; every sense carries a translation and a
    list of examples, the one pronunciation has no audio, and there are no
    verbs. *)
Theorem normalizeGeminiData_shape (aiData : value) (e : Entry) :
  normalizeGeminiData aiData = Ok (Some e) ->
  exists items pron,
    JS.get aiData "forms" = Ok (VArr items) /\ items <> [] /\
    map_result gemini_form items = Ok (definition e) /\
    length (definition e) = length items /\
    Forall (fun d => is_Some (def_translation d) /\ is_Some (def_example d)) (definition e) /\
    pos e = map def_pos (definition e) /\
    pronunciation e = [mk_pronunciation pron (VStr "")] /\
    verbs e = [] /\ is_Some (translation e).
Proof.
  unfold normalizeGeminiData. intros H.
  apply bind_Ok in H as (reject & Hg & H).
  destruct reject; [discriminate H|].
  apply bind_Ok in H as (forms & Hforms & H).
  apply bind_Ok in H as (items & Hitems & H).
  destruct forms; simpl in Hitems; try discriminate Hitems. injection Hitems as ->.
  apply bind_Ok in H as (definitions & Hdefs & H).
  apply bind_Ok in H as (pron & Hpron & H).
  apply bind_Ok in H as (w & Hw & H).
  apply bind_Ok in H as (phrase & Hphrase & H).
  apply bind_Ok in H as (tr & Htr & H).
  injection H as <-. simpl.
  exists items, (JS.or_else pron (VStr "")). repeat split; try assumption; eauto.
  - intros ->. unfold gemini_guard in Hg.
    destruct (negb (JS.truthy aiData)); [discriminate Hg|].
    rewrite Hforms in Hg. simpl in Hg. discriminate Hg.
  - now apply map_result_length in Hdefs.
  - eapply map_result_Forall; [|exact Hdefs]. apply gemini_form_fields.
Qed.

(** ** The projector on raw values *)

Lemma raw_lookup_set_prop_eq (k : string) (x : value) (props : list (string * value)) :
  JS.lookup_prop k (Raw.set_prop k x props) = x.
Proof.
  induction props as [|[k' v] props IH]; simpl.
  - now rewrite String.eqb_refl.
  - destruct (String.eqb k k') eqn:E; simpl; rewrite E; [reflexivity | exact IH].
Qed.

Lemma raw_lookup_set_prop_ne (k k' : string) (x : value) (props : list (string * value)) :
  k <> k' -> JS.lookup_prop k' (Raw.set_prop k x props) = JS.lookup_prop k' props.
Proof.
  intros Hne. induction props as [|[k0 v] props IH]; simpl.
  - apply String.eqb_neq in Hne. now rewrite String.eqb_sym, Hne.
  - destruct (String.eqb k k0) eqn:E; simpl.
    + apply String.eqb_eq in E as <-.
      apply String.eqb_neq in Hne. now rewrite String.eqb_sym, Hne.
    + now rewrite IH.
Qed.

Section RawFacts.

Variable gt : string -> Z -> bool.

Lemma raw_trim_examples_sense (count : Z) (d : Sense) :
  Raw.trim_examples gt count (Raw.value_of_sense d)
  = Ok (Raw.value_of_sense (trim_examples count d)).
Proof.
  destruct d as [p t tr ex]. unfold trim_examples, Raw.trim_examples, Raw.value_of_sense.
  destruct tr as [tr|], ex as [ex|]; simpl; try reflexivity;
    destruct (count <? Z.of_nat (length ex))%Z; reflexivity.
Qed.

Lemma map_result_fmap {A B C : Type} (f : B -> result C) (g : A -> B) (h : A -> C) (l : list A) :
  (forall x, f (g x) = Ok (h x)) -> map_result f (g <$> l) = Ok (h <$> l).
Proof.
  intros H. induction l as [|x l IH]; [reflexivity|].
  rewrite !fmap_cons. cbn [map_result]. rewrite H. cbn [bind]. now rewrite IH.
Qed.

Lemma raw_projector_entry (e : Entry) (settings : Settings) :
  Raw.applyDisplayPreferences gt (Raw.value_of_entry e) settings
  = Ok (Raw.value_of_entry (applyDisplayPreferences e settings)).
Proof.
  assert (JS.get (Raw.value_of_entry e) "definition"
          = Ok (VArr (Raw.value_of_sense <$> definition e))) as Hget
    by (unfold Raw.value_of_entry; destruct (translation e); reflexivity).
  unfold Raw.applyDisplayPreferences. rewrite Hget. simpl bind.
  rewrite length_fmap.
  fold (limit_of settings).
  assert ((if String.eqb (str_or (definitionScope settings) "relevant") "relevant"
              && (1 <? length (definition e))%nat
           then take 1 (Raw.value_of_sense <$> definition e)
           else Raw.value_of_sense <$> definition e)
          = Raw.value_of_sense <$> kept e settings) as ->.
  { unfold kept. destruct (_ && _); [now rewrite fmap_take | reflexivity]. }
  rewrite (map_result_fmap _ _ (fun d => Raw.value_of_sense (trim_examples (limit_of settings) d)))
    by apply raw_trim_examples_sense.
  simpl bind.
  change (fun d : Sense => Raw.value_of_sense (trim_examples (limit_of settings) d))
    with (Raw.value_of_sense ∘ trim_examples (limit_of settings)).
  rewrite (list_fmap_compose (trim_examples (limit_of settings)) Raw.value_of_sense).
  change (trim_examples (limit_of settings) <$> kept e settings)
    with (definition (applyDisplayPreferences e settings)).
  unfold Raw.value_of_entry. simpl.
  destruct (translation e); reflexivity.
Qed.

(** X6.  On the object an entry stands for, the projector on raw values
    returns the object the projected entry stands for: the projector of the
    handler and the projector on entries are one function. *)
Theorem raw_applyDisplayPreferences_entry (e : Entry) (settings : Settings) :
  Raw.applyDisplayPreferences gt (Raw.value_of_entry e) settings
  = Ok (Raw.value_of_entry (applyDisplayPreferences e settings)).
Proof. apply raw_projector_entry. Qed.

(** The projector throws unless [definition] can be iterated. *)
Lemma raw_applyDisplayPreferences_not_iterable (data : value) (settings : Settings) :
  (forall d, JS.get data "definition" = Ok d -> Raw.spread_array d = Throw) ->
  Raw.applyDisplayPreferences gt data settings = Throw.
Proof.
  intros H. unfold Raw.applyDisplayPreferences.
  destruct (JS.get data "definition") as [d|]; [|reflexivity].
  simpl. now rewrite (H d eq_refl).
Qed.

(** X7.  What the projector returns: an object whose [definition] is an array of
    no more elements than the [definition] it was given, of one at most
    under the scope [relevant], and whose other properties are those of the
    object it was given. *)
Theorem raw_applyDisplayPreferences_shape (data : value) (settings : Settings) (v : value) :
  Raw.applyDisplayPreferences gt data settings = Ok v ->
  exists defs items finals,
    JS.get data "definition" = Ok defs /\
    Raw.spread_array defs = Ok items /\
    JS.get v "definition" = Ok (VArr finals) /\
    length finals <= length items /\
    (str_or (definitionScope settings) "relevant" = "relevant" -> length finals <= 1) /\
    (forall props k, data = VObj props -> k <> "definition" -> JS.get v k = JS.get data k).
Proof.
  unfold Raw.applyDisplayPreferences. intros H.
  apply bind_Ok in H as (defs & Hdefs & H).
  apply bind_Ok in H as (items & Hitems & H).
  apply bind_Ok in H as (finals & Hfinals & H).
  injection H as <-.
  apply map_result_length in Hfinals.
  exists defs, items, finals. repeat split; try assumption.
  - simpl. now rewrite raw_lookup_set_prop_eq.
  - rewrite Hfinals. destruct (_ && _); [rewrite length_take|]; lia.
  - intros Hrel. rewrite Hfinals, Hrel. simpl.
    destruct (1 <? length items)%nat eqn:E; [rewrite length_take; lia|].
    apply Nat.ltb_ge in E. lia.
  - intros props k -> Hk. simpl. rewrite raw_lookup_set_prop_ne; [reflexivity|].
    intros Heq. now apply Hk.
Qed.

End RawFacts.

(** ** Audio from Cambridge *)

(** The Gemini adapter puts one pronunciation object, without audio. *)
Lemma normalizeGeminiData_pronunciation (aiData : value) (e : Entry) :
  normalizeGeminiData aiData = Ok (Some e) ->
  exists pron, pronunciation e = [mk_pronunciation pron (VStr "")].
Proof.
  unfold normalizeGeminiData. intros H. inv_ok. subst e. simpl. eauto.
Qed.

Section EnrichFacts.

Variable gt : string -> Z -> bool.

(** X11.  With no Cambridge answer, or one without pronunciations, the entry stays
    as it is. *)
Theorem enrich_nothing_to_borrow (e : Entry) (cambridgeData : value) :
  JS.truthy cambridgeData = false
  \/ (exists props,
        cambridgeData = VObj props /\
        (JS.truthy (JS.lookup_prop "pronunciation" props) = false
         \/ JS.lookup_prop "pronunciation" props = VArr [])) ->
  Handler.enrich gt e cambridgeData = Ok e.
Proof.
  unfold Handler.enrich, JS.and_then.
  intros [H|(props & -> & [H| H])].
  - rewrite H. simpl. now rewrite H.
  - simpl. now rewrite H.
  - simpl. now rewrite H.
Qed.

(** X12.  Enrichment writes [url] and [pron] of the first pronunciation and
    nothing else, and it keeps a phonetic text that is there already. *)
Theorem enrich_frame (e : Entry) (cambridgeData : value) (e' : Entry) :
  Handler.enrich gt e cambridgeData = Ok e' ->
  word e' = word e /\ translation e' = translation e /\ pos e' = pos e /\
  verbs e' = verbs e /\ definition e' = definition e /\
  (pronunciation e' = pronunciation e
   \/ exists first first' others,
        pronunciation e = VObj first :: others /\
        pronunciation e' = VObj first' :: others /\
        (forall k, k <> "url" -> k <> "pron" ->
                   JS.lookup_prop k first' = JS.lookup_prop k first) /\
        (JS.truthy (JS.lookup_prop "pron" first) = true ->
         JS.lookup_prop "pron" first' = JS.lookup_prop "pron" first)).
Proof.
  unfold Handler.enrich. intros H.
  apply bind_Ok in H as (prons & _ & H).
  apply bind_Ok in H as (some & _ & H).
  destruct some; [|injection H as <-; repeat split; now left].
  apply bind_Ok in H as (items & _ & H).
  apply bind_Ok in H as (found & _ & H).
  apply bind_Ok in H as (cambridgePron & _ & H).
  destruct (JS.truthy cambridgePron); [|injection H as <-; repeat split; now left].
  destruct (pronunciation e) as [|[| | | | | |first] others] eqn:Hp; try discriminate H.
  apply bind_Ok in H as (url & _ & H).
  apply bind_Ok in H as (pron & _ & H).
  injection H as <-. simpl. repeat split.
  right.
  pose proof (raw_lookup_set_prop_ne "url" "pron" (JS.or_else url (VStr "")) first) as Hpr.
  rewrite Hpr by discriminate.
  eexists first, _, others. split; [reflexivity|]. split; [reflexivity|].
  destruct (JS.truthy (JS.lookup_prop "pron" first)) eqn:Htr; simpl.
  - split; [|intros _; apply Hpr; discriminate].
    intros k Hurl _. rewrite raw_lookup_set_prop_ne; [reflexivity | congruence].
  - split; [|discriminate].
    intros k Hurl Hpron. destruct (JS.truthy pron).
    + rewrite !raw_lookup_set_prop_ne; [reflexivity | congruence | congruence].
    + rewrite raw_lookup_set_prop_ne; [reflexivity | congruence].
Qed.

Lemma find_url_first (before : list value) (p : value) (after : list value) (u : value) :
  Forall (fun x => exists ux, JS.get x "url" = Ok ux /\ JS.truthy ux = false) before ->
  JS.get p "url" = Ok u -> JS.truthy u = true ->
  Handler.find_url (before ++ p :: after) = Ok p.
Proof.
  intros Hb Hp Hu. induction Hb as [|x before (ux & Hx & Hux) _ IH]; simpl.
  - now rewrite Hp; simpl; rewrite Hu.
  - rewrite Hx. simpl. now rewrite Hux.
Qed.

(** X13.  The audio borrowed is that of the first Cambridge pronunciation that
    has one, wherever it stands in the list. *)
Theorem enrich_first_audio
    (e : Entry) (first : list (string * value)) (others : list value)
    (props : list (string * value)) (before : list value) (p : value) (after : list value)
    (u : value) :
  pronunciation e = VObj first :: others ->
  JS.lookup_prop "pronunciation" props = VArr (before ++ p :: after) ->
  Forall (fun x => exists ux, JS.get x "url" = Ok ux /\ JS.truthy ux = false) before ->
  JS.get p "url" = Ok u -> JS.truthy u = true ->
  exists e' first',
    Handler.enrich gt e (VObj props) = Ok e' /\
    pronunciation e' = VObj first' :: others /\
    JS.lookup_prop "url" first' = u.
Proof.
  intros Hpe Hprons Hb Hp Hu.
  assert (JS.truthy p = true) as Htp
    by (destruct p as [| |[]|n|s| |]; simpl in *; try discriminate; try reflexivity;
        injection Hp as <-; discriminate Hu).
  unfold Handler.enrich, JS.and_then. simpl. rewrite Hprons. simpl.
  assert ((0 <? Z.of_nat (length (before ++ p :: after)))%Z = true) as ->
    by (apply Z.ltb_lt; rewrite length_app; simpl; lia).
  rewrite (find_url_first before p after u Hb Hp Hu). simpl. rewrite Htp. simpl.
  rewrite Htp, Hpe, Hp. simpl.
  assert (exists pr, JS.get p "pron" = Ok pr) as [pr ->]
    by (destruct p; simpl in *; try discriminate; eauto).
  simpl. eexists _, _. split; [reflexivity|]. simpl. split; [reflexivity|].
  unfold JS.or_else. rewrite Hu.
  destruct (_ && _).
  - rewrite raw_lookup_set_prop_ne by discriminate. apply raw_lookup_set_prop_eq.
  - apply raw_lookup_set_prop_eq.
Qed.

End EnrichFacts.

(** ** The handler of [getDefinition] *)

Section HandlerFacts.

Variable gt : string -> Z -> bool.

(** What [finish] does with a promise that is settled. *)
Lemma finish_rejected (settings : Settings) (key : string) (m : option string) :
  Handler.finish gt settings key (Handler.Rejected m) = (Handler.Failure m, None).
Proof. reflexivity. Qed.

Lemma finish_entry (settings : Settings) (key : string) (e : Entry) :
  JS.truthy (word e) = true ->
  Handler.finish gt settings key (Handler.Resolved (Raw.value_of_entry e))
  = (Handler.Success (Raw.value_of_entry (applyDisplayPreferences e settings)) (Handler.tts settings),
     Some (key, Raw.value_of_entry (applyDisplayPreferences e settings))).
Proof.
  intros Hw. unfold Handler.finish. simpl. rewrite Hw. simpl.
  now rewrite raw_projector_entry.
Qed.

Lemma finish_no_word (settings : Settings) (key : string) (fullData : value) :
  (JS.truthy fullData = false
   \/ exists w, JS.get fullData "word" = Ok w /\ JS.truthy w = false) ->
  Handler.finish gt settings key (Handler.Resolved fullData)
  = (Handler.Failure (Some "Definition not found or API returned invalid format."), None).
Proof.
  unfold Handler.finish, JS.and_then. simpl.
  intros [H|(w & Hw & Hf)].
  - rewrite H. simpl. now rewrite H.
  - destruct (JS.truthy fullData) eqn:Ht; simpl.
    + rewrite Hw. simpl. now rewrite Hf.
    + now rewrite Ht.
Qed.

(** What [finish] returns, read backwards. *)
Lemma finish_inv (settings : Settings) (key : string) (p : Handler.outcome value)
    (r : Handler.response) (wr : option (string * value)) :
  Handler.finish gt settings key p = (r, wr) ->
  (exists m, r = Handler.Failure m /\ wr = None)
  \/ (exists props finals,
        r = Handler.Success (VObj props) (Handler.tts settings) /\
        wr = Some (key, VObj props) /\
        JS.truthy (JS.lookup_prop "word" props) = true /\
        JS.lookup_prop "definition" props = VArr finals).
Proof.
  unfold Handler.finish. destruct p as [fullData|m]; simpl; [|intros [= <- <-]; left; eauto].
  destruct (JS.and_then fullData (JS.get fullData "word")) as [w|] eqn:Hw; simpl;
    [|intros [= <- <-]; left; eauto].
  destruct (JS.truthy w) eqn:Htw; [|intros [= <- <-]; left; eauto].
  destruct (Raw.applyDisplayPreferences gt fullData settings) as [v|] eqn:Hv; simpl;
    [|intros [= <- <-]; left; eauto].
  intros [= <- <-]. right.
  assert (exists props, fullData = VObj props /\ JS.lookup_prop "word" props = w)
    as (props & -> & Hword).
  { unfold JS.and_then in Hw. destruct (JS.truthy fullData) eqn:Hf.
    - destruct fullData as [| |b|n|s|l|props]; simpl in Hw; try discriminate Hw;
        injection Hw as <-; try discriminate Htw; eauto.
    - injection Hw as <-. congruence. }
  pose proof Hv as Hv'. unfold Raw.applyDisplayPreferences in Hv'.
  apply bind_Ok in Hv' as (defs & _ & Hv').
  apply bind_Ok in Hv' as (items & _ & Hv').
  apply bind_Ok in Hv' as (finals & _ & Hv'). injection Hv' as <-.
  simpl. eexists _, finals. split; [reflexivity|]. split; [reflexivity|]. split.
  - rewrite raw_lookup_set_prop_ne by discriminate. now rewrite Hword.
  - apply raw_lookup_set_prop_eq.
Qed.

(** A cached answer is handed out as it is. *)
Lemma getDefinition_hit
    (net : string -> Handler.fetched) (settings : Settings) (cached : string -> value)
    (term : string) :
  JS.truthy (cached (displaySettingsCacheKey settings (Text.toLowerCase term))) = true ->
  Handler.getDefinition gt net settings cached term
  = (Handler.Success (cached (displaySettingsCacheKey settings (Text.toLowerCase term))) (Handler.tts settings), None).
Proof. intros H. unfold Handler.getDefinition. now rewrite H. Qed.

(** X15.  Without an API key the Merriam-Webster source reports that, fetches
    nothing and writes nothing. *)
Theorem getDefinition_mw_without_key
    (net : string -> Handler.fetched) (settings : Settings) (cached : string -> value)
    (term : string) :
  JS.truthy (cached (displaySettingsCacheKey settings (Text.toLowerCase term))) = false ->
  provider_of settings = "merriam-webster" ->
  mwApiKey settings = None \/ mwApiKey settings = Some "" ->
  Handler.getDefinition gt net settings cached term
  = (Handler.Failure (Some "Merriam-Webster API key is not set."), None).
Proof.
  intros Hmiss Hsrc Hkey. unfold Handler.getDefinition.
  rewrite Hmiss. unfold provider_of in Hsrc. rewrite Hsrc. simpl.
  now destruct Hkey as [-> | ->].
Qed.

(** What the handler returns, read backwards. *)
Lemma getDefinition_cases
    (net : string -> Handler.fetched) (settings : Settings) (cached : string -> value)
    (term : string) (r : Handler.response) (wr : option (string * value)) :
  Handler.getDefinition gt net settings cached term = (r, wr) ->
  (JS.truthy (cached (displaySettingsCacheKey settings (Text.toLowerCase term))) = true /\
   r = Handler.Success (cached (displaySettingsCacheKey settings (Text.toLowerCase term))) (Handler.tts settings) /\ wr = None)
  \/ (JS.truthy (cached (displaySettingsCacheKey settings (Text.toLowerCase term))) = false /\
      exists m, r = Handler.Failure m /\ wr = None)
  \/ (JS.truthy (cached (displaySettingsCacheKey settings (Text.toLowerCase term))) = false /\
      exists props finals,
        r = Handler.Success (VObj props) (Handler.tts settings) /\
        wr = Some (displaySettingsCacheKey settings (Text.toLowerCase term), VObj props) /\
        JS.truthy (JS.lookup_prop "word" props) = true /\
        JS.lookup_prop "definition" props = VArr finals).
Proof.
  unfold Handler.getDefinition.
  destruct (JS.truthy (cached (displaySettingsCacheKey settings (Text.toLowerCase term)))) eqn:Hhit.
  - intros [= <- <-]. left. auto.
  - intros H. right.
    assert (forall p, Handler.finish gt settings (displaySettingsCacheKey settings (Text.toLowerCase term)) p = (r, wr) ->
              (exists m, r = Handler.Failure m /\ wr = None)
              \/ (exists props finals,
                    r = Handler.Success (VObj props) (Handler.tts settings) /\
                    wr = Some (displaySettingsCacheKey settings (Text.toLowerCase term), VObj props) /\
                    JS.truthy (JS.lookup_prop "word" props) = true /\
                    JS.lookup_prop "definition" props = VArr finals)) as Hfin
      by (intros p; apply finish_inv).
    assert ((exists m, r = Handler.Failure m /\ wr = None)
            \/ (exists props finals,
                  r = Handler.Success (VObj props) (Handler.tts settings) /\
                  wr = Some (displaySettingsCacheKey settings (Text.toLowerCase term), VObj props) /\
                  JS.truthy (JS.lookup_prop "word" props) = true /\
                  JS.lookup_prop "definition" props = VArr finals)) as [Hr|Hr].
    { destruct (String.eqb _ "gemini"); [eapply Hfin, H|].
      destruct (String.eqb _ "merriam-webster"); [|eapply Hfin, H].
      destruct (mwApiKey settings) as [k|].
      - destruct (String.eqb k ""); [injection H as <- <-; left; eauto | eapply Hfin, H].
      - injection H as <- <-. left. eauto. }
    + left. auto.
    + right. auto.
Qed.

(** X22.  Every answer is a cached value handed out unchanged, a failure that
    writes nothing, or a fresh entry (an object with a headword and a list
    of senses) that is written to the cache under the request's key exactly
    as it is sent. *)
Theorem getDefinition_outcome
    (net : string -> Handler.fetched) (settings : Settings) (cached : string -> value)
    (term : string) (r : Handler.response) (wr : option (string * value)) :
  Handler.getDefinition gt net settings cached term = (r, wr) ->
  (JS.truthy (cached (displaySettingsCacheKey settings (Text.toLowerCase term))) = true /\
   r = Handler.Success (cached (displaySettingsCacheKey settings (Text.toLowerCase term))) (Handler.tts settings) /\ wr = None)
  \/ (JS.truthy (cached (displaySettingsCacheKey settings (Text.toLowerCase term))) = false /\
      exists m, r = Handler.Failure m /\ wr = None)
  \/ (JS.truthy (cached (displaySettingsCacheKey settings (Text.toLowerCase term))) = false /\
      exists props finals,
        r = Handler.Success (VObj props) (Handler.tts settings) /\
        wr = Some (displaySettingsCacheKey settings (Text.toLowerCase term), VObj props) /\
        JS.truthy (JS.lookup_prop "word" props) = true /\
        JS.lookup_prop "definition" props = VArr finals).
Proof. apply getDefinition_cases. Qed.

(** X23.  Once the store returns what the handler wrote, the same request is
    answered from the cache with the same data, whatever the network does. *)
Theorem getDefinition_replay
    (net net' : string -> Handler.fetched) (settings : Settings)
    (cached cached' : string -> value) (term : string)
    (d : value) (t : bool) (k : string) :
  Handler.getDefinition gt net settings cached term = (Handler.Success d t, Some (k, d)) ->
  cached' k = d ->
  Handler.getDefinition gt net' settings cached' term = (Handler.Success d t, None).
Proof.
  intros H Hc.
  apply getDefinition_cases in H as [(_ & _ & [=])|[(_ & m & [=] & _)|(_ & props & finals & Hr & Hwr & _)]].
  injection Hr as -> ->. injection Hwr as ->.
  rewrite (getDefinition_hit net' settings cached' term); rewrite Hc; reflexivity.
Qed.

(** X14.  The handler reads the term in small letters: a term and its lower-case
    form are one request. *)
Theorem getDefinition_lowercase
    (net : string -> Handler.fetched) (settings : Settings) (cached : string -> value)
    (term : string) :
  Handler.getDefinition gt net settings cached (Text.toLowerCase term)
  = Handler.getDefinition gt net settings cached term.
Proof. unfold Handler.getDefinition. now rewrite toLowerCase_idempotent. Qed.

(** X16.  For a phrase the Gemini source consults its own address only: the
    Cambridge service is not asked for audio. *)
Theorem getDefinition_phrase_gemini_only
    (net net' : string -> Handler.fetched) (settings : Settings) (cached : string -> value)
    (term : string) :
  provider_of settings = "gemini" ->
  Text.isPhrase (Text.toLowerCase term) = true ->
  net (Handler.geminiUrl (Text.toLowerCase term) (language_of settings))
  = net' (Handler.geminiUrl (Text.toLowerCase term) (language_of settings)) ->
  Handler.getDefinition gt net settings cached term
  = Handler.getDefinition gt net' settings cached term.
Proof.
  intros Hsrc Hphrase Hnet. unfold Handler.getDefinition.
  unfold provider_of in Hsrc. unfold language_of in Hnet. rewrite Hsrc. simpl.
  unfold Handler.gemini_promise. rewrite Hphrase.
  unfold Handler.fetch_json. now rewrite Hnet.
Qed.

(** X17.  For a single word the Cambridge request is part of the answer: when it
    fails, the lookup fails, whatever Gemini answered. *)
Theorem getDefinition_cambridge_down
    (net : string -> Handler.fetched) (settings : Settings) (cached : string -> value)
    (term : string) :
  JS.truthy (cached (displaySettingsCacheKey settings (Text.toLowerCase term))) = false ->
  provider_of settings = "gemini" ->
  Text.isPhrase (Text.toLowerCase term) = false ->
  net (Handler.cambridgeUrl (Text.encodeURIComponent (Text.toLowerCase term)))
  = Handler.NetworkError ->
  Handler.getDefinition gt net settings cached term = (Handler.Failure None, None).
Proof.
  intros Hmiss Hsrc Hphrase Hnet. unfold Handler.getDefinition.
  rewrite Hmiss. unfold provider_of in Hsrc. rewrite Hsrc. simpl.
  unfold Handler.gemini_promise. rewrite Hphrase.
  unfold Handler.fetch_json, Handler.fetch_json_or_null. rewrite Hnet.
  now destruct (net (Handler.geminiUrl _ _)).
Qed.

(** X18.  A Cambridge answer that is no JSON is passed over: the Gemini entry is
    projected and sent without audio. *)
Theorem getDefinition_cambridge_unreadable
    (net : string -> Handler.fetched) (settings : Settings) (cached : string -> value)
    (term : string) (geminiData : value) (e : Entry) :
  JS.truthy (cached (displaySettingsCacheKey settings (Text.toLowerCase term))) = false ->
  provider_of settings = "gemini" ->
  Text.isPhrase (Text.toLowerCase term) = false ->
  net (Handler.geminiUrl (Text.toLowerCase term) (language_of settings)) = Handler.Body geminiData ->
  net (Handler.cambridgeUrl (Text.encodeURIComponent (Text.toLowerCase term)))
  = Handler.BadBody ->
  normalizeGeminiData geminiData = Ok (Some e) ->
  JS.truthy (word e) = true ->
  Handler.getDefinition gt net settings cached term
  = (Handler.Success (Raw.value_of_entry (applyDisplayPreferences e settings))
       (Handler.tts settings),
     Some (displaySettingsCacheKey settings (Text.toLowerCase term), Raw.value_of_entry (applyDisplayPreferences e settings))).
Proof.
  intros Hmiss Hsrc Hphrase Hg Hc He Hw. unfold Handler.getDefinition.
  rewrite Hmiss. unfold provider_of in Hsrc. unfold language_of in Hg. rewrite Hsrc. simpl.
  unfold Handler.gemini_promise. rewrite Hphrase.
  unfold Handler.fetch_json, Handler.fetch_json_or_null. rewrite Hg, Hc. simpl.
  unfold Handler.adapt_gemini. rewrite He. simpl.
  now apply finish_entry.
Qed.

(** X20.  The three ways a Merriam-Webster answer ends: an entry with a headword
    is projected, sent and cached; [null] from the adapter, or an entry
    without headword, is reported as not found; an exception of the adapter
    is reported with the engine's message.  The last two write nothing. *)
Theorem getDefinition_mw_outcomes
    (net : string -> Handler.fetched) (settings : Settings) (cached : string -> value)
    (term apiKey : string) (data : value) :
  JS.truthy (cached (displaySettingsCacheKey settings (Text.toLowerCase term))) = false ->
  provider_of settings = "merriam-webster" ->
  mwApiKey settings = Some apiKey -> apiKey <> "" ->
  net (Handler.mwUrl (Text.toLowerCase term) apiKey) = Handler.Body data ->
  (forall e, normalizeMwData gt data = Ok (Some e) -> JS.truthy (word e) = true ->
     Handler.getDefinition gt net settings cached term
     = (Handler.Success (Raw.value_of_entry (applyDisplayPreferences e settings))
          (Handler.tts settings),
        Some (displaySettingsCacheKey settings (Text.toLowerCase term),
              Raw.value_of_entry (applyDisplayPreferences e settings)))) /\
  (normalizeMwData gt data = Ok None
   \/ (exists e, normalizeMwData gt data = Ok (Some e) /\ JS.truthy (word e) = false) ->
     Handler.getDefinition gt net settings cached term
     = (Handler.Failure (Some "Definition not found or API returned invalid format."), None)) /\
  (normalizeMwData gt data = Throw ->
     Handler.getDefinition gt net settings cached term = (Handler.Failure None, None)).
Proof.
  intros Hmiss Hsrc Hkey Hne Hnet.
  assert (Handler.getDefinition gt net settings cached term
          = Handler.finish gt settings (displaySettingsCacheKey settings (Text.toLowerCase term))
              (Handler.and_then (Handler.of_result (normalizeMwData gt data))
                 (fun normalized =>
                    Handler.Resolved (match normalized with
                                      | Some e => Raw.value_of_entry e
                                      | None => VNull
                                      end)))) as ->.
  { unfold Handler.getDefinition. rewrite Hmiss.
    unfold provider_of in Hsrc. rewrite Hsrc, Hkey. simpl.
    apply String.eqb_neq in Hne. rewrite Hne.
    unfold Handler.mw_promise, Handler.fetch_json. now rewrite Hnet. }
  split; [|split].
  - intros e -> Hw. simpl. now apply finish_entry.
  - intros [-> | (e & -> & Hw)]; simpl.
    + apply finish_no_word. now left.
    + apply finish_no_word. right. exists (word e). split; [|assumption].
      unfold Raw.value_of_entry. reflexivity.
  - intros ->. reflexivity.
Qed.

(** X19.  Forms that the Gemini adapter answers with [null] are reported as an
    invalid Gemini answer, once the requests themselves went through. *)
Theorem getDefinition_gemini_invalid
    (net : string -> Handler.fetched) (settings : Settings) (cached : string -> value)
    (term : string) (geminiData : value) :
  JS.truthy (cached (displaySettingsCacheKey settings (Text.toLowerCase term))) = false ->
  provider_of settings = "gemini" ->
  net (Handler.geminiUrl (Text.toLowerCase term) (language_of settings)) = Handler.Body geminiData ->
  normalizeGeminiData geminiData = Ok None ->
  Text.isPhrase (Text.toLowerCase term) = true
  \/ net (Handler.cambridgeUrl (Text.encodeURIComponent (Text.toLowerCase term)))
     <> Handler.NetworkError ->
  Handler.getDefinition gt net settings cached term
  = (Handler.Failure (Some "Gemini AI definition not found or invalid format."), None).
Proof.
  intros Hmiss Hsrc Hg Hnull Hor. unfold Handler.getDefinition.
  rewrite Hmiss. unfold provider_of in Hsrc. unfold language_of in Hg. rewrite Hsrc. simpl.
  unfold Handler.gemini_promise, Handler.fetch_json, Handler.fetch_json_or_null.
  rewrite Hg. unfold Handler.adapt_gemini. cbn [Handler.and_then].
  destruct (Text.isPhrase (Text.toLowerCase term)).
  - rewrite Hnull. reflexivity.
  - destruct Hor as [?|Hc]; [discriminate|].
    destruct (net (Handler.cambridgeUrl _)); [contradiction | |];
      cbn [Handler.and_then]; rewrite Hnull; reflexivity.
Qed.

(** X21.  The default source hands its answer through: an entry with a headword
    is projected like any other; an answer without headword is reported as
    not found; an answer whose [definition] cannot be iterated makes the
    projector throw, which is reported and not cached. *)
Theorem getDefinition_passthrough
    (net : string -> Handler.fetched) (settings : Settings) (cached : string -> value)
    (term : string) (data : value) :
  JS.truthy (cached (displaySettingsCacheKey settings (Text.toLowerCase term))) = false ->
  provider_of settings <> "gemini" -> provider_of settings <> "merriam-webster" ->
  net (Handler.cambridgeUrl (Text.toLowerCase term)) = Handler.Body data ->
  (forall e, data = Raw.value_of_entry e -> JS.truthy (word e) = true ->
     Handler.getDefinition gt net settings cached term
     = (Handler.Success (Raw.value_of_entry (applyDisplayPreferences e settings))
          (Handler.tts settings),
        Some (displaySettingsCacheKey settings (Text.toLowerCase term),
              Raw.value_of_entry (applyDisplayPreferences e settings)))) /\
  (JS.truthy data = false
   \/ (exists w, JS.get data "word" = Ok w /\ JS.truthy w = false) ->
     Handler.getDefinition gt net settings cached term
     = (Handler.Failure (Some "Definition not found or API returned invalid format."), None)) /\
  (forall w d, JS.get data "word" = Ok w -> JS.truthy w = true ->
     JS.get data "definition" = Ok d -> Raw.spread_array d = Throw ->
     Handler.getDefinition gt net settings cached term = (Handler.Failure None, None)).
Proof.
  intros Hmiss Hg Hmw Hnet.
  assert (Handler.getDefinition gt net settings cached term
          = Handler.finish gt settings (displaySettingsCacheKey settings (Text.toLowerCase term)) (Handler.Resolved data)) as ->.
  { unfold Handler.getDefinition. rewrite Hmiss. unfold provider_of in Hg, Hmw.
    apply String.eqb_neq in Hg, Hmw. rewrite Hg, Hmw.
    unfold Handler.fetch_json. now rewrite Hnet. }
  split; [|split].
  - intros e -> Hw. now apply finish_entry.
  - apply finish_no_word.
  - intros w d Hw Htw Hd Hspread. unfold Handler.finish, JS.and_then. simpl.
    assert (JS.truthy data = true) as ->
      by (destruct data as [| |[]|n|s| |]; simpl in *; try discriminate; try reflexivity;
          injection Hw as <-; discriminate Htw).
    rewrite Hw. simpl. rewrite Htw.
    rewrite raw_applyDisplayPreferences_not_iterable; [reflexivity|].
    intros d' Hd'. rewrite Hd in Hd'. now injection Hd' as <-.
Qed.

(** X28.  The way of a Gemini answer to the user: the adapted entry, for a single
    word enriched with what Cambridge answered ([null] where that was no
    JSON), is projected, sent and written to the cache. *)
Theorem getDefinition_gemini_delivers
    (net : string -> Handler.fetched) (settings : Settings) (cached : string -> value)
    (term : string) (geminiData : value) (e e' : Entry) :
  JS.truthy (cached (displaySettingsCacheKey settings (Text.toLowerCase term))) = false ->
  provider_of settings = "gemini" ->
  net (Handler.geminiUrl (Text.toLowerCase term) (language_of settings)) = Handler.Body geminiData ->
  normalizeGeminiData geminiData = Ok (Some e) ->
  (Text.isPhrase (Text.toLowerCase term) = true /\ e' = e)
  \/ (Text.isPhrase (Text.toLowerCase term) = false /\
      exists cambridgeData,
        Handler.fetch_json_or_null net
          (Handler.cambridgeUrl (Text.encodeURIComponent (Text.toLowerCase term)))
        = Handler.Resolved cambridgeData /\
        Handler.enrich gt e cambridgeData = Ok e') ->
  JS.truthy (word e') = true ->
  Handler.getDefinition gt net settings cached term
  = (Handler.Success (Raw.value_of_entry (applyDisplayPreferences e' settings))
       (Handler.tts settings),
     Some (displaySettingsCacheKey settings (Text.toLowerCase term), Raw.value_of_entry (applyDisplayPreferences e' settings))).
Proof.
  intros Hmiss Hsrc Hg He Hway Hw. unfold Handler.getDefinition.
  rewrite Hmiss. unfold provider_of in Hsrc. unfold language_of in Hg. rewrite Hsrc. simpl.
  unfold Handler.gemini_promise, Handler.fetch_json. rewrite Hg.
  cbn [Handler.and_then]. unfold Handler.adapt_gemini.
  destruct Hway as [[-> ->]|(-> & cambridgeData & -> & Hen)].
  - rewrite He. cbn [Handler.and_then Handler.of_result]. now apply finish_entry.
  - cbn [Handler.and_then]. rewrite He. cbn [Handler.and_then Handler.of_result].
    rewrite Hen. cbn [Handler.and_then Handler.of_result]. now apply finish_entry.
Qed.

End HandlerFacts.

(** ** The handler of [translateSentence] *)

Section SentenceFacts.

Variable net : string -> Handler.fetched.

(** X24.  Without a target language, and with the language [none], nothing is
    looked up, fetched or written. *)
Theorem translateSentence_no_language
    (settings : Settings) (cached : string -> value) (sentence : string) :
  targetLanguage settings = None \/ targetLanguage settings = Some ""
  \/ targetLanguage settings = Some "none" ->
  Handler.translateSentence net settings cached sentence
  = (Handler.NoLanguage "Please select a target language in options setting to proceed",
     None).
Proof.
  intros [H|[H|H]]; unfold Handler.translateSentence; now rewrite H.
Qed.

Lemma translateSentence_hit
    (settings : Settings) (cached : string -> value) (sentence l : string) :
  targetLanguage settings = Some l -> l <> "" -> l <> "none" ->
  JS.truthy (cached (Handler.sentenceCacheKey sentence l)) = true ->
  Handler.translateSentence net settings cached sentence
  = (Handler.Success (cached (Handler.sentenceCacheKey sentence l)) (Handler.tts settings),
     None).
Proof.
  intros Hl H1 H2 Hhit. unfold Handler.translateSentence. rewrite Hl.
  apply String.eqb_neq in H1, H2. rewrite H1, H2. simpl. now rewrite Hhit.
Qed.

Lemma translateSentence_cases
    (settings : Settings) (cached : string -> value) (sentence l : string)
    (r : Handler.response) (wr : option (string * value)) :
  targetLanguage settings = Some l -> l <> "" -> l <> "none" ->
  Handler.translateSentence net settings cached sentence = (r, wr) ->
  (JS.truthy (cached (Handler.sentenceCacheKey sentence l)) = true /\
   r = Handler.Success (cached (Handler.sentenceCacheKey sentence l)) (Handler.tts settings) /\
   wr = None)
  \/ (JS.truthy (cached (Handler.sentenceCacheKey sentence l)) = false /\
      exists m, r = Handler.Failure m /\ wr = None)
  \/ (JS.truthy (cached (Handler.sentenceCacheKey sentence l)) = false /\
      exists data error,
        net (Handler.translateUrl sentence l) = Handler.Body data /\
        JS.get data "error" = Ok error /\ JS.truthy error = false /\
        r = Handler.Success data (Handler.tts settings) /\
        wr = Some (Handler.sentenceCacheKey sentence l, data)).
Proof.
  intros Hl H1 H2. unfold Handler.translateSentence. rewrite Hl.
  apply String.eqb_neq in H1, H2. rewrite H1, H2. simpl.
  destruct (JS.truthy (cached _)) eqn:Hhit; [intros [= <- <-]; left; auto|].
  intros H. right. unfold Handler.fetch_json, Handler.check_translation in H.
  destruct (net (Handler.translateUrl sentence l)) as [| |data] eqn:Hnet; simpl in H;
    try (injection H as <- <-; left; eauto).
  destruct (JS.get data "error") as [error|] eqn:Herr; simpl in H;
    [|injection H as <- <-; left; eauto].
  destruct (JS.truthy error) eqn:Ht; injection H as <- <-; [left; eauto|].
  right. split; [reflexivity|]. exists data, error. auto.
Qed.

(** X25.  An answer with an [error] is reported with that error as the message
    and is not cached. *)
Theorem translateSentence_error_payload
    (settings : Settings) (cached : string -> value) (sentence l : string)
    (data error : value) (text : string) :
  targetLanguage settings = Some l -> l <> "" -> l <> "none" ->
  JS.truthy (cached (Handler.sentenceCacheKey sentence l)) = false ->
  net (Handler.translateUrl sentence l) = Handler.Body data ->
  JS.get data "error" = Ok error -> JS.truthy error = true ->
  JS.to_string error = Ok text ->
  Handler.translateSentence net settings cached sentence
  = (Handler.Failure (Some text), None).
Proof.
  intros Hl H1 H2 Hmiss Hnet Herr Ht Htext. unfold Handler.translateSentence. rewrite Hl.
  apply String.eqb_neq in H1, H2. rewrite H1, H2. simpl. rewrite Hmiss.
  unfold Handler.fetch_json, Handler.check_translation. rewrite Hnet. simpl.
  rewrite Herr. simpl. now rewrite Ht, Htext.
Qed.

End SentenceFacts.

(** X26.  What the handler sends is a cached value, a failure that writes nothing,
    or an answer without [error] that is written under the sentence's key
    exactly as it is sent. *)
Theorem translateSentence_outcome
    (net : string -> Handler.fetched)
    (settings : Settings) (cached : string -> value) (sentence l : string)
    (r : Handler.response) (wr : option (string * value)) :
  targetLanguage settings = Some l -> l <> "" -> l <> "none" ->
  Handler.translateSentence net settings cached sentence = (r, wr) ->
  (JS.truthy (cached (Handler.sentenceCacheKey sentence l)) = true /\
   r = Handler.Success (cached (Handler.sentenceCacheKey sentence l)) (Handler.tts settings) /\
   wr = None)
  \/ (JS.truthy (cached (Handler.sentenceCacheKey sentence l)) = false /\
      exists m, r = Handler.Failure m /\ wr = None)
  \/ (JS.truthy (cached (Handler.sentenceCacheKey sentence l)) = false /\
      exists data error,
        net (Handler.translateUrl sentence l) = Handler.Body data /\
        JS.get data "error" = Ok error /\ JS.truthy error = false /\
        r = Handler.Success data (Handler.tts settings) /\
        wr = Some (Handler.sentenceCacheKey sentence l, data)).
Proof. apply translateSentence_cases. Qed.

(** X27.  A translation that was written is served from the cache afterwards,
    whatever the network does then, as long as it is truthy; a falsy answer
    ([0], [false], the empty string) is written too, and fetched again. *)
Theorem translateSentence_replay
    (net net' : string -> Handler.fetched)
    (settings : Settings) (cached cached' : string -> value) (sentence : string)
    (d : value) (t : bool) (k : string) :
  Handler.translateSentence net settings cached sentence = (Handler.Success d t, Some (k, d)) ->
  cached' k = d ->
  (JS.truthy d = true ->
   Handler.translateSentence net' settings cached' sentence = (Handler.Success d t, None)) /\
  (JS.truthy d = false ->
   Handler.translateSentence net' settings cached' sentence
   = Handler.translateSentence net' settings (fun _ => VUndef) sentence).
Proof.
  intros H Hc.
  assert (exists l, targetLanguage settings = Some l /\ l <> "" /\ l <> "none")
    as (l & Hl & H1 & H2).
  { unfold Handler.translateSentence in H.
    destruct (targetLanguage settings) as [l|]; [|discriminate H].
    exists l. split; [reflexivity|].
    destruct (String.eqb l "") eqn:E1; [discriminate H|].
    destruct (String.eqb l "none") eqn:E2; [discriminate H|].
    now apply String.eqb_neq in E1, E2. }
  apply (translateSentence_cases net settings cached sentence l _ _ Hl H1 H2) in H
    as [(_ & _ & [=])|[(_ & m & [=] & _)|(_ & data & error & _ & _ & _ & Hr & Hwr)]].
  injection Hr as -> ->. injection Hwr as ->.
  split; intros Ht.
  - rewrite (translateSentence_hit net' settings cached' sentence l Hl H1 H2);
      rewrite Hc; [reflexivity | exact Ht].
  - unfold Handler.translateSentence. rewrite Hl.
    apply String.eqb_neq in H1, H2. rewrite H1, H2. simpl. now rewrite Hc, Ht.
Qed.

(** ** Examples *)

Lemma sentence_keys_apart_witness :
  Handler.sentenceCacheKey "Hola!" "es" = Handler.sentenceCacheKey "Hola!" "es" /\
  "Hola!" = "Hola!".
Proof.
  split; [reflexivity|].
  apply (proj1 (sentence_keys_apart "Hola!" "Hola!" "es")). reflexivity.
Defined.

Lemma sentenceCacheKey_injective_witness :
  no_delim "es" = true /\ "Hola!" = "Hola!" /\ "es" = "es".
Proof.
  split; [reflexivity|].
  apply (sentenceCacheKey_injective "Hola!" "Hola!" "es" "es"); reflexivity.
Defined.

Lemma sentenceCacheKey_collision_witness :
  Handler.sentenceCacheKey ("a" +:+ "_" +:+ "b") "c"
  = Handler.sentenceCacheKey "a" ("b" +:+ "_" +:+ "c") /\
  Handler.sentenceCacheKey "a" "b_c" = "qdp_sentence_a_b_c".
Proof.
  split; [|reflexivity].
  apply (sentenceCacheKey_collision "a" "b" "c"). reflexivity.
Defined.

Lemma raw_applyDisplayPreferences_shape_witness :
  let data := Sample.cambridge_answer in
  let settings := mkSettings None None None None None None in
  exists v,
    Raw.applyDisplayPreferences Sample.gt data settings = Ok v /\
    exists defs items finals,
      JS.get data "definition" = Ok defs /\
      Raw.spread_array defs = Ok items /\
      JS.get v "definition" = Ok (VArr finals) /\
      length finals <= length items /\
      (str_or (definitionScope settings) "relevant" = "relevant" -> length finals <= 1) /\
      (forall props k, data = VObj props -> k <> "definition" -> JS.get v k = JS.get data k).
Proof.
  intros data settings. eexists. split; [reflexivity|].
  apply (raw_applyDisplayPreferences_shape Sample.gt data settings). reflexivity.
Defined.

Lemma normalizeMwData_shape_witness :
  exists e,
    normalizeMwData Sample.gt Sample.mw_answer = Ok (Some e) /\
    exists w p d ex,
      word e = VStr w /\ Text.all_chars (fun c => negb (Ascii.eqb c ":")) w = true /\
      translation e = None /\ verbs e = [] /\ pronunciation e = [p] /\
      pos e = [def_pos d] /\ definition e = [d] /\
      def_translation d = None /\ def_example d = Some ex /\ length ex <= 1.
Proof.
  eexists. split; [reflexivity|].
  apply (normalizeMwData_shape Sample.gt Sample.mw_answer). reflexivity.
Defined.

Lemma mw_examples_vis_total_witness :
  let def := VArr [VObj [("sseq", VArr [])]] in
  let suppl := VObj [("examples", VArr [])] in
  let entry := VObj [("suppl", suppl); ("def", def)] in
  mw_vis_examples def = Throw /\
  exists l, mw_examples Sample.gt entry = Ok l /\ length l <= 1 /\
            (mw_vis_examples def = Throw -> l = []).
Proof.
  intros def suppl entry. split; [reflexivity|].
  apply (mw_examples_vis_total Sample.gt entry suppl (VArr []) def); try reflexivity.
  - right. exists (VNum 0). split; reflexivity.
  - right. exists (VObj [("sseq", VArr [])]), (VArr []). split; reflexivity.
Defined.

Lemma normalizeGeminiData_shape_witness :
  exists e,
    normalizeGeminiData Sample.gemini_answer = Ok (Some e) /\
    exists items pron,
      JS.get Sample.gemini_answer "forms" = Ok (VArr items) /\ items <> [] /\
      map_result gemini_form items = Ok (definition e) /\
      length (definition e) = length items /\
      Forall (fun d => is_Some (def_translation d) /\ is_Some (def_example d)) (definition e) /\
      pos e = map def_pos (definition e) /\
      pronunciation e = [mk_pronunciation pron (VStr "")] /\
      verbs e = [] /\ is_Some (translation e).
Proof.
  eexists. split; [reflexivity|].
  apply (normalizeGeminiData_shape Sample.gemini_answer). reflexivity.
Defined.

Lemma enrich_nothing_to_borrow_witness :
  Handler.enrich Sample.gt Sample.cambridge_entry VNull = Ok Sample.cambridge_entry /\
  Handler.enrich Sample.gt Sample.cambridge_entry (VObj [("pronunciation", VArr [])])
  = Ok Sample.cambridge_entry.
Proof.
  split.
  - apply (enrich_nothing_to_borrow Sample.gt Sample.cambridge_entry VNull).
    left. reflexivity.
  - reflexivity.
Defined.

Lemma enrich_frame_witness :
  let e :=
    {| word := VStr "run"; translation := Some VNull; pos := [VStr "verb"]; verbs := [];
       pronunciation := [mk_pronunciation (VStr "/run/") (VStr "")];
       definition := [] |} in
  exists e',
    Handler.enrich Sample.gt e Sample.cambridge_answer = Ok e' /\
    word e' = word e /\ translation e' = translation e /\ pos e' = pos e /\
    verbs e' = verbs e /\ definition e' = definition e /\
    (pronunciation e' = pronunciation e
     \/ exists first first' others,
          pronunciation e = VObj first :: others /\
          pronunciation e' = VObj first' :: others /\
          (forall k, k <> "url" -> k <> "pron" ->
                     JS.lookup_prop k first' = JS.lookup_prop k first) /\
          (JS.truthy (JS.lookup_prop "pron" first) = true ->
           JS.lookup_prop "pron" first' = JS.lookup_prop "pron" first)).
Proof.
  intros e. eexists. split; [reflexivity|].
  apply (enrich_frame Sample.gt e Sample.cambridge_answer). reflexivity.
Defined.

Lemma enrich_first_audio_witness :
  let first := [("lang", VStr "us"); ("pron", VStr ""); ("url", VStr "")] in
  let e :=
    {| word := VStr "run"; translation := Some VNull; pos := [VStr "verb"]; verbs := [];
       pronunciation := [VObj first]; definition := [] |} in
  exists e' first',
    Handler.enrich Sample.gt e Sample.cambridge_answer = Ok e' /\
    pronunciation e' = VObj first' :: [] /\
    JS.lookup_prop "url" first' = VStr "https://dictionary.cambridge.org/media/run.mp3".
Proof.
  intros first e.
  apply (enrich_first_audio Sample.gt e first []
           [("word", VStr "run"); ("pos", VArr [VStr "verb"]); ("verbs", VArr []);
            ("pronunciation", VArr (pronunciation Sample.cambridge_entry));
            ("definition",
             VArr (Raw.value_of_sense <$> definition Sample.cambridge_entry))]
           [VObj [("lang", VStr "uk"); ("pron", VStr "/ran/"); ("url", VStr "")]]
           (VObj [("lang", VStr "us"); ("pron", VStr "/run/");
                  ("url", VStr "https://dictionary.cambridge.org/media/run.mp3")])
           []
           (VStr "https://dictionary.cambridge.org/media/run.mp3"));
    try reflexivity.
  repeat constructor. exists (VStr ""). split; reflexivity.
Defined.

Lemma getDefinition_mw_without_key_witness :
  let settings := mkSettings (Some "merriam-webster") None None None None None in
  Handler.getDefinition Sample.gt Sample.offline settings Sample.nothing_cached "Run"
  = (Handler.Failure (Some "Merriam-Webster API key is not set."), None).
Proof.
  intros settings.
  apply (getDefinition_mw_without_key Sample.gt Sample.offline settings
           Sample.nothing_cached "Run");
    [reflexivity | reflexivity | left; reflexivity].
Defined.

Lemma getDefinition_phrase_gemini_only_witness :
  let url := Handler.geminiUrl "give up" "es" in
  Handler.getDefinition Sample.gt
    (Sample.serve url (Handler.Body Sample.gemini_phrase_answer) Handler.NetworkError)
    Sample.gemini_settings Sample.nothing_cached "Give up"
  = Handler.getDefinition Sample.gt
      (Sample.serve url (Handler.Body Sample.gemini_phrase_answer) Handler.BadBody)
      Sample.gemini_settings Sample.nothing_cached "Give up".
Proof.
  intros url.
  apply (getDefinition_phrase_gemini_only Sample.gt
           (Sample.serve url (Handler.Body Sample.gemini_phrase_answer) Handler.NetworkError)
           (Sample.serve url (Handler.Body Sample.gemini_phrase_answer) Handler.BadBody)
           Sample.gemini_settings Sample.nothing_cached "Give up");
    reflexivity.
Defined.

Lemma getDefinition_cambridge_down_witness :
  let net := Sample.serve (Handler.geminiUrl "run" "es") (Handler.Body Sample.gemini_answer)
               Handler.NetworkError in
  Handler.getDefinition Sample.gt net Sample.gemini_settings Sample.nothing_cached "Run"
  = (Handler.Failure None, None).
Proof.
  intros net.
  apply (getDefinition_cambridge_down Sample.gt net Sample.gemini_settings
           Sample.nothing_cached "Run");
    reflexivity.
Defined.

Lemma getDefinition_cambridge_unreadable_witness :
  let net := Sample.serve (Handler.geminiUrl "run" "es") (Handler.Body Sample.gemini_answer)
               Handler.BadBody in
  exists e,
    normalizeGeminiData Sample.gemini_answer = Ok (Some e) /\
    Handler.getDefinition Sample.gt net Sample.gemini_settings Sample.nothing_cached "Run"
    = (Handler.Success
         (Raw.value_of_entry (applyDisplayPreferences e Sample.gemini_settings))
         (Handler.tts Sample.gemini_settings),
       Some (displaySettingsCacheKey Sample.gemini_settings (Text.toLowerCase "Run"),
             Raw.value_of_entry (applyDisplayPreferences e Sample.gemini_settings))).
Proof.
  intros net. eexists. split; [reflexivity|].
  apply (getDefinition_cambridge_unreadable Sample.gt net Sample.gemini_settings
           Sample.nothing_cached "Run" Sample.gemini_answer);
    reflexivity.
Defined.

Lemma getDefinition_gemini_delivers_witness :
  let net := fun u =>
    if String.eqb u (Handler.geminiUrl "run" "es") then Handler.Body Sample.gemini_answer
    else if String.eqb u (Handler.cambridgeUrl "run")
         then Handler.Body Sample.cambridge_answer
         else Handler.NetworkError in
  exists e e',
    normalizeGeminiData Sample.gemini_answer = Ok (Some e) /\
    Handler.enrich Sample.gt e Sample.cambridge_answer = Ok e' /\
    JS.get (nth 0 (pronunciation e') VUndef) "url"
    = Ok (VStr "https://dictionary.cambridge.org/media/run.mp3") /\
    Handler.getDefinition Sample.gt net Sample.gemini_settings Sample.nothing_cached "Run"
    = (Handler.Success
         (Raw.value_of_entry (applyDisplayPreferences e' Sample.gemini_settings))
         (Handler.tts Sample.gemini_settings),
       Some (displaySettingsCacheKey Sample.gemini_settings (Text.toLowerCase "Run"),
             Raw.value_of_entry (applyDisplayPreferences e' Sample.gemini_settings))).
Proof.
  intros net. eexists _, _. split; [reflexivity|]. split; [reflexivity|].
  split; [reflexivity|].
  eapply (getDefinition_gemini_delivers Sample.gt net Sample.gemini_settings
            Sample.nothing_cached "Run" Sample.gemini_answer);
    try reflexivity.
  right. split; [reflexivity|]. exists Sample.cambridge_answer. split; reflexivity.
Defined.

Lemma getDefinition_gemini_invalid_witness :
  let net := Sample.serve (Handler.geminiUrl "give up" "es")
               (Handler.Body (VObj [("phrase", VStr "give up"); ("forms", VArr [])]))
               Handler.NetworkError in
  Handler.getDefinition Sample.gt net Sample.gemini_settings Sample.nothing_cached "give up"
  = (Handler.Failure (Some "Gemini AI definition not found or invalid format."), None).
Proof.
  intros net.
  apply (getDefinition_gemini_invalid Sample.gt net Sample.gemini_settings
           Sample.nothing_cached "give up"
           (VObj [("phrase", VStr "give up"); ("forms", VArr [])]));
    try reflexivity.
  left. reflexivity.
Defined.

Lemma getDefinition_mw_outcomes_witness :
  let net := Sample.serve (Handler.mwUrl "run" "k-1") (Handler.Body Sample.mw_answer)
               Handler.NetworkError in
  exists e,
    normalizeMwData Sample.gt Sample.mw_answer = Ok (Some e) /\
    Handler.getDefinition Sample.gt net Sample.mw_settings Sample.nothing_cached "Run"
    = (Handler.Success (Raw.value_of_entry (applyDisplayPreferences e Sample.mw_settings))
         (Handler.tts Sample.mw_settings),
       Some (displaySettingsCacheKey Sample.mw_settings (Text.toLowerCase "Run"),
             Raw.value_of_entry (applyDisplayPreferences e Sample.mw_settings))).
Proof.
  intros net. eexists. split; [reflexivity|].
  refine (proj1 (getDefinition_mw_outcomes Sample.gt net Sample.mw_settings
                   Sample.nothing_cached "Run" "k-1" Sample.mw_answer _ _ _ _ _) _ _ _);
    try reflexivity.
  discriminate.
Defined.

Lemma getDefinition_passthrough_witness :
  let net := Sample.serve (Handler.cambridgeUrl "run") (Handler.Body Sample.cambridge_answer)
               Handler.NetworkError in
  Handler.getDefinition Sample.gt net Sample.cambridge_settings Sample.nothing_cached "Run"
  = (Handler.Success
       (Raw.value_of_entry
          (applyDisplayPreferences Sample.cambridge_entry Sample.cambridge_settings))
       (Handler.tts Sample.cambridge_settings),
     Some (displaySettingsCacheKey Sample.cambridge_settings (Text.toLowerCase "Run"),
           Raw.value_of_entry
             (applyDisplayPreferences Sample.cambridge_entry Sample.cambridge_settings))).
Proof.
  intros net.
  refine (proj1 (getDefinition_passthrough Sample.gt net Sample.cambridge_settings
                   Sample.nothing_cached "Run" Sample.cambridge_answer _ _ _ _)
            Sample.cambridge_entry _ _);
    try reflexivity; discriminate.
Defined.

Lemma getDefinition_outcome_witness :
  let net := Sample.serve (Handler.cambridgeUrl "run") (Handler.Body Sample.cambridge_answer)
               Handler.NetworkError in
  let settings := Sample.cambridge_settings in
  let cached := Sample.nothing_cached in
  exists r wr,
    Handler.getDefinition Sample.gt net settings cached "Run" = (r, wr) /\
    ((JS.truthy (cached (displaySettingsCacheKey settings (Text.toLowerCase "Run"))) = true /\
      r = Handler.Success (cached (displaySettingsCacheKey settings (Text.toLowerCase "Run")))
            (Handler.tts settings) /\ wr = None)
     \/ (JS.truthy (cached (displaySettingsCacheKey settings (Text.toLowerCase "Run"))) = false /\
         exists m, r = Handler.Failure m /\ wr = None)
     \/ (JS.truthy (cached (displaySettingsCacheKey settings (Text.toLowerCase "Run"))) = false /\
         exists props finals,
           r = Handler.Success (VObj props) (Handler.tts settings) /\
           wr = Some (displaySettingsCacheKey settings (Text.toLowerCase "Run"), VObj props) /\
           JS.truthy (JS.lookup_prop "word" props) = true /\
           JS.lookup_prop "definition" props = VArr finals)).
Proof.
  intros net settings cached. eexists _, _. split; [reflexivity|].
  apply (getDefinition_outcome Sample.gt net settings cached "Run"). reflexivity.
Defined.

Lemma getDefinition_replay_witness :
  let net := Sample.serve (Handler.cambridgeUrl "run") (Handler.Body Sample.cambridge_answer)
               Handler.NetworkError in
  let settings := Sample.cambridge_settings in
  exists d t k,
    Handler.getDefinition Sample.gt net settings Sample.nothing_cached "Run"
    = (Handler.Success d t, Some (k, d)) /\
    Handler.getDefinition Sample.gt Sample.offline settings (Sample.holding k d) "Run"
    = (Handler.Success d t, None).
Proof.
  intros net settings. eexists _, _, _. split; [reflexivity|].
  eapply (getDefinition_replay Sample.gt net Sample.offline settings
            Sample.nothing_cached);
    reflexivity.
Defined.

Lemma translateSentence_no_language_witness :
  let settings := mkSettings None None (Some "none") None None None in
  Handler.translateSentence Sample.offline settings Sample.nothing_cached "Hola!"
  = (Handler.NoLanguage "Please select a target language in options setting to proceed",
     None).
Proof.
  intros settings.
  apply (translateSentence_no_language Sample.offline settings Sample.nothing_cached "Hola!").
  right. right. reflexivity.
Defined.

Lemma translateSentence_error_payload_witness :
  let data := VObj [("error", VStr "Translation failed")] in
  let net := Sample.serve (Handler.translateUrl "Hola!" "es") (Handler.Body data)
               Handler.NetworkError in
  Handler.translateSentence net Sample.gemini_settings Sample.nothing_cached "Hola!"
  = (Handler.Failure (Some "Translation failed"), None).
Proof.
  intros data net.
  apply (translateSentence_error_payload net Sample.gemini_settings Sample.nothing_cached
           "Hola!" "es" data (VStr "Translation failed") "Translation failed");
    try reflexivity; discriminate.
Defined.

Lemma translateSentence_outcome_witness :
  let data := VObj [("translation", VStr "Hello!")] in
  let net := Sample.serve (Handler.translateUrl "Hola!" "es") (Handler.Body data)
               Handler.NetworkError in
  let settings := Sample.gemini_settings in
  let cached := Sample.nothing_cached in
  exists r wr,
    Handler.translateSentence net settings cached "Hola!" = (r, wr) /\
    ((JS.truthy (cached (Handler.sentenceCacheKey "Hola!" "es")) = true /\
      r = Handler.Success (cached (Handler.sentenceCacheKey "Hola!" "es"))
            (Handler.tts settings) /\
      wr = None)
     \/ (JS.truthy (cached (Handler.sentenceCacheKey "Hola!" "es")) = false /\
         exists m, r = Handler.Failure m /\ wr = None)
     \/ (JS.truthy (cached (Handler.sentenceCacheKey "Hola!" "es")) = false /\
         exists data error,
           net (Handler.translateUrl "Hola!" "es") = Handler.Body data /\
           JS.get data "error" = Ok error /\ JS.truthy error = false /\
           r = Handler.Success data (Handler.tts settings) /\
           wr = Some (Handler.sentenceCacheKey "Hola!" "es", data))).
Proof.
  intros data net settings cached. eexists _, _. split; [reflexivity|].
  apply (translateSentence_outcome net settings cached "Hola!" "es");
    try reflexivity; discriminate.
Defined.

Lemma translateSentence_replay_witness :
  let data := VObj [("translation", VStr "Hello!")] in
  let net := Sample.serve (Handler.translateUrl "Hola!" "es") (Handler.Body data)
               Handler.NetworkError in
  let settings := Sample.gemini_settings in
  let k := Handler.sentenceCacheKey "Hola!" "es" in
  Handler.translateSentence net settings Sample.nothing_cached "Hola!"
  = (Handler.Success data false, Some (k, data)) /\
  Handler.translateSentence Sample.offline settings (Sample.holding k data) "Hola!"
  = (Handler.Success data false, None).
Proof.
  intros data net settings k. split; [reflexivity|].
  refine (proj1 (translateSentence_replay net Sample.offline settings
                   Sample.nothing_cached (Sample.holding k data) "Hola!" data false k _ _) _);
    reflexivity.
Defined.
